(** * Decimal coins of the SDK's [types] package

    A shallow embedding of [DecCoin] and [DecCoins]: validated
    construction, the sorted-merge arithmetic, truncation with change,
    the binary-search lookup, the validity predicate and the parser.

    Conventions.
    - A Go [string] is a sequence of bytes: [String.string], compared
      byte-wise by [String.compare].
    - A [big.Int] is a [Z].
    - A Go [error] result is an [error] (None is [nil]).
    - A Go function that can [panic] returns an [outcome]. *)

From Stdlib Require Import ZArith List String Ascii Bool Lia.
From Stdlib Require Import Sorted Permutation.
From Equations Require Import Equations.
Import ListNotations.

Local Open Scope string_scope.
Local Open Scope Z_scope.
Local Open Scope list_scope.

(** ** Fixed-point decimals *)

(** [sdk.Int]: a wrapper around [big.Int]. *)
Definition Int : Type := Z.

(** Modelled from the spec: the fixed-point decimal [Dec], whose
    declaration is not among the sources ("an integer scaled by a fixed power
    of ten").  A [Dec] is its scaled integer: the decimal it stands for
    is the value divided by [precisionReuse]. *)
Definition Dec : Type := Z.

Definition Precision : Z := 18.
Definition precisionReuse : Z := 10 ^ Precision.

Definition ZeroDec : Dec := 0.
Definition OneDec : Dec := precisionReuse.

(** Modelled from the spec: the operations of [Dec] that the decimal
    coins call ("Add, Sub, Neg, ... comparison (IsZero, IsPositive,
    IsNegative, LT/LTE ...), TruncateToInteger (returns the integer part,
    rounding toward zero ...)"). *)
Definition NewDecFromInt (i : Int) : Dec := i * precisionReuse.
Definition NewDec (i : Z) : Dec := i * precisionReuse.
Definition Dec_Add (d d2 : Dec) : Dec := d + d2.
Definition Dec_Sub (d d2 : Dec) : Dec := d - d2.
Definition Dec_Neg (d : Dec) : Dec := - d.
Definition Dec_IsZero (d : Dec) : bool := d =? 0.
Definition Dec_IsPositive (d : Dec) : bool := 0 <? d.
Definition Dec_IsNegative (d : Dec) : bool := d <? 0.
Definition Dec_LT (d d2 : Dec) : bool := d <? d2.
Definition Dec_LTE (d d2 : Dec) : bool := d <=? d2.
Definition Dec_TruncateInt (d : Dec) : Int := Z.quot d precisionReuse.

(** ** Coins *)

Record Coin : Type := mkCoin { Coin_Denom : string; Coin_Amount : Int }.

Record DecCoin : Type := mkDecCoin { Denom : string; Amount : Dec }.

Definition Coins : Type := list Coin.
Definition DecCoins : Type := list DecCoin.

(** ** Errors and panics *)

(** An error value keeps the format and the arguments it was built from
    ([errors.New], [fmt.Errorf]) instead of the rendered text. *)
Inductive error_value : Type :=
| errors_New (msg : string)
| fmt_Errorf (format : string) (args : list fmt_arg)
with fmt_arg : Type :=
| ArgError (e : error_value)
| ArgDec (d : Dec)
| ArgString (s : string)
| ArgDecCoins (cs : DecCoins).

Definition error : Type := option error_value.

(** [err == nil]. *)
Definition passes (err : error) : bool :=
  match err with None => true | Some _ => false end.

(** The argument of [panic]: an error ([panic(err)]) or a message
    ([panic(fmt.Sprintf(...))]). *)
Inductive panic_value : Type :=
| PanicError (e : error_value)
| PanicString (s : string).

Inductive outcome (A : Type) : Type :=
| Return (a : A)
| Panic (p : panic_value).
Arguments Return {A} a.
Arguments Panic {A} p.

Definition bind {A B : Type} (m : outcome A) (k : A -> outcome B) : outcome B :=
  match m with
  | Return a => k a
  | Panic p => Panic p
  end.

Notation "x <- m ;; k" := (bind m (fun x => k))
  (at level 61, m at next level, right associativity).
Notation "' pat <- m ;; k" := (bind m (fun x => match x with pat => k end))
  (at level 61, pat pattern, m at next level, right associativity).

(** ** Go library functions used by the parser *)

Module strings.

(** The UTF-8 encodings of the code points for which [unicode.IsSpace]
    holds: tab, line feed, vertical tab, form feed, carriage return,
    space, U+0085, U+00A0, U+1680, U+2000 to U+200A, U+2028, U+2029,
    U+202F, U+205F and U+3000. *)
Definition bytes (l : list nat) : string :=
  fold_right (fun n s => String (ascii_of_nat n) s) EmptyString l.

Definition spaces : list string :=
  map bytes
    [ [9%nat]; [10%nat]; [11%nat]; [12%nat]; [13%nat]; [32%nat];
      [194; 133]%nat; [194; 160]%nat; [225; 154; 128]%nat;
      [226; 128; 128]%nat; [226; 128; 129]%nat; [226; 128; 130]%nat;
      [226; 128; 131]%nat; [226; 128; 132]%nat; [226; 128; 133]%nat;
      [226; 128; 134]%nat; [226; 128; 135]%nat; [226; 128; 136]%nat;
      [226; 128; 137]%nat; [226; 128; 138]%nat; [226; 128; 168]%nat;
      [226; 128; 169]%nat; [226; 128; 175]%nat; [226; 129; 159]%nat;
      [227; 128; 128]%nat ].

Fixpoint stripPrefix (p s : string) : option string :=
  match p, s with
  | EmptyString, _ => Some s
  | String a p', String b s' => if Ascii.eqb a b then stripPrefix p' s' else None
  | String _ _, EmptyString => None
  end.

Fixpoint stripAny (ps : list string) (s : string) : option string :=
  match ps with
  | [] => None
  | p :: ps' =>
    match stripPrefix p s with
    | Some s' => Some s'
    | None => stripAny ps' s
    end
  end.

(** Removes leading white space, at most [fuel] code points of it. *)
Fixpoint trimLeft (ps : list string) (fuel : nat) (s : string) : string :=
  match fuel with
  | O => s
  | S fuel' =>
    match stripAny ps s with
    | Some s' => trimLeft ps fuel' s'
    | None => s
    end
  end.

Fixpoint rev (s : string) : string :=
  match s with
  | EmptyString => EmptyString
  | String a s' => String.append (rev s') (String a EmptyString)
  end.

(** [strings.TrimSpace]: the string without its leading and trailing
    white space.  Every white-space code point takes at least one byte,
    so [String.length s] rounds are enough on each side. *)
Definition TrimSpace (s : string) : string :=
  let l := trimLeft spaces (String.length s) s in
  rev (trimLeft (map rev spaces) (String.length l) (rev l)).

(** [strings.Compare] is [String.compare]: -1 is [Lt], 0 is [Eq] and 1
    is [Gt]. *)
Definition Compare (a b : string) : comparison := String.compare a b.

End strings.

(** [regexp.MustCompile(",|;").Split(s, -1)]: the pieces of [s] between
    the separators, empty pieces included. *)
Fixpoint splitRe_Split (s : string) : list string :=
  match s with
  | EmptyString => [EmptyString]
  | String c s' =>
    if (Ascii.eqb c ","%char || Ascii.eqb c ";"%char)%bool then
      EmptyString :: splitRe_Split s'
    else
      match splitRe_Split s' with
      | piece :: pieces => String c piece :: pieces
      | [] => [String c EmptyString]
      end
  end.

(** ** What the decimal coins take from the rest of the package *)

(** The functions of the package that the decimal coins call, that are
    not among the sources and whose results no property depends on: the
    two denomination checks, the regular expression [reDecCoin] (as the
    pair of submatches 1 and 2 of [FindStringSubmatch]), the decimal
    parser and the four scalar products and quotients. *)
Class Package : Type := {
  validateCoinDenomContainsSpace : string -> error;
  validateCoinDenomCase : string -> error;
  reDecCoin_FindStringSubmatch : string -> option (string * string);
  NewDecFromStr : string -> Dec * error;
  Dec_Mul : Dec -> Dec -> Dec;
  Dec_MulTruncate : Dec -> Dec -> Dec;
  Dec_Quo : Dec -> Dec -> Dec;
  Dec_QuoTruncate : Dec -> Dec -> Dec
}.

Section DecCoin.

Context {pkg : Package}.

(** [validateDecCoinAmount], lines 446-454. *)
Definition validateDecCoinAmount (amount : Dec) (strict : bool) : error :=
  if strict && Dec_LTE amount ZeroDec then
    Some (errors_New "non-positive coin amount")
  else if negb strict && Dec_LT amount ZeroDec then
    Some (errors_New "negative coin amount")
  else None.

(** [DecCoin.Validate], lines 85-99. *)
Definition Validate (coin : DecCoin) (strict : bool) : error :=
  match validateDecCoinAmount (Amount coin) strict with
  | Some err => Some (fmt_Errorf "%s: %s" [ArgError err; ArgDec (Amount coin)])
  | None =>
    match validateCoinDenomContainsSpace (Denom coin) with
    | Some err => Some (fmt_Errorf "%s: %s" [ArgError err; ArgString (Denom coin)])
    | None =>
      match validateCoinDenomCase (Denom coin) with
      | Some err => Some (fmt_Errorf "%s: %s" [ArgError err; ArgString (Denom coin)])
      | None => None
      end
    end
  end.

(** The constructors' [if err := c.Validate(strict); err != nil
    { panic(err) }; return c]. *)
Definition validated (c : DecCoin) (strict : bool) : outcome DecCoin :=
  match Validate c strict with
  | Some err => Panic (PanicError err)
  | None => Return c
  end.

(** Lines 23-59. *)
Definition NewDecCoin (denom : string) (amount : Z) : outcome DecCoin :=
  validated (mkDecCoin denom (NewDec amount)) false.

Definition NewPositiveDecCoin (denom : string) (amount : Z) : outcome DecCoin :=
  validated (mkDecCoin denom (NewDec amount)) true.

Definition NewDecCoinFromDec (denom : string) (amount : Dec) : outcome DecCoin :=
  validated (mkDecCoin denom amount) false.

Definition NewPositiveDecCoinFromDec (denom : string) (amount : Dec) : outcome DecCoin :=
  validated (mkDecCoin denom amount) true.

(** Lines 63-79. *)
Definition NewDecCoinFromCoin (coin : Coin) : outcome DecCoin :=
  validated (mkDecCoin (Coin_Denom coin) (NewDecFromInt (Coin_Amount coin))) false.

Definition NewPositiveDecCoinFromCoin (coin : Coin) : outcome DecCoin :=
  validated (mkDecCoin (Coin_Denom coin) (NewDecFromInt (Coin_Amount coin))) true.

(** Modelled from the spec: [NewCoin], which is not among the sources:
    the validating constructor of the integer coin ("Invariant enforced
    by every constructor: ... amount must be non-negative"; a violation
    is raised the way the constructors above raise it). *)
Definition NewCoin (denom : string) (amount : Int) : outcome Coin :=
  if amount <? 0 then Panic (PanicError (errors_New "negative coin amount"))
  else
    match validateCoinDenomContainsSpace denom with
    | Some err => Panic (PanicError err)
    | None =>
      match validateCoinDenomCase denom with
      | Some err => Panic (PanicError err)
      | None => Return (mkCoin denom amount)
      end
    end.

(** The message of the denomination panic,
    [fmt.Sprintf("coin denom different: %v %v\n", a, b)]. *)
Definition denomDifferent (a b : string) : string :=
  ("coin denom different: " ++ a ++ " " ++ b ++ String (ascii_of_nat 10) "")%string.

(** [DecCoin.Plus], lines 102-107. *)
Definition DecCoin_Plus (coin coinB : DecCoin) : outcome DecCoin :=
  if negb (String.eqb (Denom coin) (Denom coinB)) then
    Panic (PanicString (denomDifferent (Denom coin) (Denom coinB)))
  else Return (mkDecCoin (Denom coin) (Dec_Add (Amount coin) (Amount coinB))).

(** [DecCoin.Minus], lines 110-115. *)
Definition DecCoin_Minus (coin coinB : DecCoin) : outcome DecCoin :=
  if negb (String.eqb (Denom coin) (Denom coinB)) then
    Panic (PanicString (denomDifferent (Denom coin) (Denom coinB)))
  else Return (mkDecCoin (Denom coin) (Dec_Sub (Amount coin) (Amount coinB))).

(** [DecCoin.TruncateDecimal], lines 118-122.  Go evaluates the two
    constructor calls of the [return] from left to right. *)
Definition DecCoin_TruncateDecimal (coin : DecCoin) : outcome (Coin * DecCoin) :=
  let truncated := Dec_TruncateInt (Amount coin) in
  let change := Dec_Sub (Amount coin) (NewDecFromInt truncated) in
  c <- NewCoin (Denom coin) truncated ;;
  dc <- NewDecCoinFromDec (Denom coin) change ;;
  Return (c, dc).

(** [DecCoin.IsPositive], lines 127-129. *)
Definition DecCoin_IsPositive (coin : DecCoin) : bool :=
  Dec_IsPositive (Amount coin).

(** ** Decimal coin sets *)

(** [NewDecCoins], lines 147-153. *)
Fixpoint NewDecCoins (coins : Coins) : outcome DecCoins :=
  match coins with
  | [] => Return []
  | coin :: rest =>
    dc <- NewDecCoinFromCoin coin ;;
    dcs <- NewDecCoins rest ;;
    Return (dc :: dcs)
  end.

(** The loop of [DecCoins.Plus], lines 190-216.  The state is [sum] and
    the two remaining slices [coins[indexA:]] and [coinsB[indexB:]];
    [strings.Compare] answers -1, 0 or 1, here [Lt], [Eq] or [Gt]. *)
Fixpoint plusLoop (coins : DecCoins) : list DecCoin -> DecCoins -> outcome DecCoins :=
  fix plusLoopB (sum : list DecCoin) (coinsB : DecCoins) {struct coinsB}
    : outcome DecCoins :=
    match coins, coinsB with
    | [], [] => Return sum
    | [], _ :: _ => Return (sum ++ coinsB)
    | _ :: _, [] => Return (sum ++ coins)
    | coinA :: restA, coinB :: restB =>
      match strings.Compare (Denom coinA) (Denom coinB) with
      | Lt => plusLoop restA (sum ++ [coinA]) coinsB
      | Eq =>
        if Dec_IsZero (Dec_Add (Amount coinA) (Amount coinB)) then
          plusLoop restA sum restB
        else
          c <- DecCoin_Plus coinA coinB ;;
          plusLoop restA (sum ++ [c]) restB
      | Gt => plusLoopB (sum ++ [coinB]) restB
      end
    end.

(** [DecCoins.Plus], lines 186-217. *)
Definition DecCoins_Plus (coins coinsB : DecCoins) : outcome DecCoins :=
  plusLoop coins [] coinsB.

(** [DecCoins.Negative], lines 220-229. *)
Definition DecCoins_Negative (coins : DecCoins) : DecCoins :=
  map (fun coin => mkDecCoin (Denom coin) (Dec_Neg (Amount coin))) coins.

(** [DecCoins.Minus], lines 232-234. *)
Definition DecCoins_Minus (coins coinsB : DecCoins) : outcome DecCoins :=
  DecCoins_Plus coins (DecCoins_Negative coinsB).

(** The loop of [DecCoins.TruncateDecimal], lines 176-180: [out] is the
    part of the result slice written so far. *)
Fixpoint truncateLoop (coins : DecCoins) (out : Coins) (changeSum : DecCoins)
  : outcome (Coins * DecCoins) :=
  match coins with
  | [] => Return (out, changeSum)
  | coin :: rest =>
    '(truncated, change) <- DecCoin_TruncateDecimal coin ;;
    changeSum' <- DecCoins_Plus changeSum [change] ;;
    truncateLoop rest (out ++ [truncated]) changeSum'
  end.

(** [DecCoins.TruncateDecimal], lines 173-182. *)
Definition DecCoins_TruncateDecimal (coins : DecCoins) : outcome (Coins * DecCoins) :=
  truncateLoop coins [] [].

(** [DecCoins.MulDec], lines 237-247. *)
Definition DecCoins_MulDec (coins : DecCoins) (d : Dec) : DecCoins :=
  map (fun coin => mkDecCoin (Denom coin) (Dec_Mul (Amount coin) d)) coins.

(** [DecCoins.MulDecTruncate], lines 250-260. *)
Definition DecCoins_MulDecTruncate (coins : DecCoins) (d : Dec) : DecCoins :=
  map (fun coin => mkDecCoin (Denom coin) (Dec_MulTruncate (Amount coin) d)) coins.

(** [DecCoins.QuoDec], lines 263-273. *)
Definition DecCoins_QuoDec (coins : DecCoins) (d : Dec) : DecCoins :=
  map (fun coin => mkDecCoin (Denom coin) (Dec_Quo (Amount coin) d)) coins.

(** [DecCoins.QuoDecTruncate], lines 276-286. *)
Definition DecCoins_QuoDecTruncate (coins : DecCoins) (d : Dec) : DecCoins :=
  map (fun coin => mkDecCoin (Denom coin) (Dec_QuoTruncate (Amount coin) d)) coins.

(** [midIdx := len(coins) / 2], line 300. *)
Definition midIdx (coins : DecCoins) : nat := Nat.div (List.length coins) 2.
Arguments midIdx : simpl never.

(** [DecCoins.AmountOf], lines 289-310: [coins[:midIdx]] is [firstn] and
    [coins[midIdx+1:]] is [skipn]; [midIdx] is within the slice. *)
Equations? DecCoins_AmountOf (coins : DecCoins) (denom : string) : Dec
  by wf (List.length coins) lt :=
DecCoins_AmountOf [] denom := ZeroDec;
DecCoins_AmountOf [coin] denom :=
  if String.eqb (Denom coin) denom then Amount coin else ZeroDec;
DecCoins_AmountOf (c0 :: c1 :: rest) denom :=
  if String.ltb denom (Denom (nth (midIdx (c0 :: c1 :: rest)) (c0 :: c1 :: rest) c0))
  then DecCoins_AmountOf (firstn (midIdx (c0 :: c1 :: rest)) (c0 :: c1 :: rest)) denom
  else if String.eqb denom
            (Denom (nth (midIdx (c0 :: c1 :: rest)) (c0 :: c1 :: rest) c0))
  then Amount (nth (midIdx (c0 :: c1 :: rest)) (c0 :: c1 :: rest) c0)
  else DecCoins_AmountOf (skipn (S (midIdx (c0 :: c1 :: rest))) (c0 :: c1 :: rest)) denom.
Proof.
  - assert (H : (midIdx (c0 :: c1 :: rest) < List.length (c0 :: c1 :: rest))%nat)
      by (apply Nat.div_lt; simpl; lia).
    rewrite List.length_firstn. apply Nat.min_lt_iff. left. exact H.
  - change (List.length (skipn (S (midIdx (c0 :: c1 :: rest))) (c0 :: c1 :: rest))
            < List.length (c0 :: c1 :: rest))%nat.
    rewrite List.length_skipn. cbn [List.length]. lia.
Qed.

(** [DecCoins.HasNegative], lines 313-320. *)
Definition DecCoins_HasNegative (coins : DecCoins) : bool :=
  existsb (fun coin => Dec_IsNegative (Amount coin)) coins.

(** [DecCoins.IsZero], lines 323-330. *)
Definition DecCoins_IsZero (coins : DecCoins) : bool :=
  forallb (fun coin => Dec_IsZero (Amount coin)) coins.

(** The loop of [DecCoins.IsValid] over [coins[1:]], lines 350-360. *)
Fixpoint isValidLoop (lowDenom : string) (coins : DecCoins) : bool :=
  match coins with
  | [] => true
  | coin :: rest =>
    match Validate coin true with
    | Some _ => false
    | None =>
      if String.leb (Denom coin) lowDenom then false
      else isValidLoop (Denom coin) rest
    end
  end.

(** [DecCoins.IsValid], lines 334-364; the default case calls itself on
    the one-element slice [DecCoins{coins[0]}]. *)
Equations? DecCoins_IsValid (coins : DecCoins) : bool by wf (List.length coins) lt :=
DecCoins_IsValid [] := true;
DecCoins_IsValid [coin] :=
  match Validate coin true with
  | Some _ => false
  | None => true
  end;
DecCoins_IsValid (c0 :: c1 :: rest) :=
  if negb (DecCoins_IsValid [c0]) then false
  else isValidLoop (Denom c0) (c1 :: rest).
Proof. simpl. lia. Qed.

(** ** Sorting *)

(** [DecCoins.Less], line 373. *)
Definition Less (a b : DecCoin) : bool := String.ltb (Denom a) (Denom b).

(** [sort.Sort] puts the slice in an order in which no element is [Less]
    than an earlier one; where it leaves elements of equal denom is not
    specified.  Here: insertion behind the elements that are not
    greater. *)
Fixpoint sortInsert (c : DecCoin) (sorted : DecCoins) : DecCoins :=
  match sorted with
  | [] => [c]
  | x :: rest => if Less c x then c :: sorted else x :: sortInsert c rest
  end.

(** [DecCoins.Sort], lines 377-380. *)
Definition DecCoins_Sort (coins : DecCoins) : DecCoins :=
  fold_left (fun sorted c => sortInsert c sorted) coins [].

(** ** Parsing *)

(** [DecCoin{}], returned next to an error; no caller reads it. *)
Definition DecCoin_zero : DecCoin := mkDecCoin EmptyString ZeroDec.

(** [parseDecCoinString], lines 456-470. *)
Definition parseDecCoinString (coinStr : string) : DecCoin * error :=
  let coinStr := strings.TrimSpace coinStr in
  match reDecCoin_FindStringSubmatch coinStr with
  | None =>
    (DecCoin_zero,
     Some (fmt_Errorf "invalid decimal coin expression %q" [ArgString coinStr]))
  | Some (amountStr, denomStr) =>
    match NewDecFromStr amountStr with
    | (_, Some _) =>
      (DecCoin_zero,
       Some (fmt_Errorf "failed to parse decimal coin amount: %s" [ArgString amountStr]))
    | (amount, None) => (mkDecCoin denomStr amount, None)
    end
  end.

(** The body shared by [ParseDecCoin] and [ParsePositiveDecCoin]. *)
Definition parseValidated (coinStr : string) (strict : bool) : DecCoin * error :=
  match parseDecCoinString coinStr with
  | (_, Some err) =>
    (DecCoin_zero, Some (fmt_Errorf "failed to parse decimal coin: %s" [ArgError err]))
  | (coin, None) =>
    match Validate coin strict with
    | Some err => (DecCoin_zero, Some (fmt_Errorf "validation error: %s" [ArgError err]))
    | None => (coin, None)
    end
  end.

(** [ParseDecCoin], lines 387-398. *)
Definition ParseDecCoin (coinStr : string) : DecCoin * error :=
  parseValidated coinStr false.

(** [ParsePositiveDecCoin], lines 402-413. *)
Definition ParsePositiveDecCoin (coinStr : string) : DecCoin * error :=
  parseValidated coinStr true.

(** The loop of [ParseDecCoins], lines 426-433: the coins parsed so far,
    or the first error. *)
Fixpoint parseLoop (coinStrs : list string) (coins : DecCoins) : DecCoins * error :=
  match coinStrs with
  | [] => (coins, None)
  | coinStr :: rest =>
    match ParseDecCoin coinStr with
    | (_, Some err) => ([], Some err)
    | (coin, None) => parseLoop rest (coins ++ [coin])
    end
  end.

(** [ParseDecCoins], lines 418-444. *)
Definition ParseDecCoins (coinsStr : string) : DecCoins * error :=
  let coinsStr := strings.TrimSpace coinsStr in
  if Nat.eqb (String.length coinsStr) 0 then ([], None)
  else
    match parseLoop (splitRe_Split coinsStr) [] with
    | (_, Some err) => ([], Some err)
    | (coins, None) =>
      let coins := DecCoins_Sort coins in
      if negb (DecCoins_IsValid coins) then
        ([], Some (fmt_Errorf "parsed decimal coins are invalid: %#v" [ArgDecCoins coins]))
      else (coins, None)
    end.

End DecCoin.

(** ** Reference notions the properties are stated with *)

(** [a < b] on Go strings. *)
Definition slt (a b : string) : Prop := String.compare a b = Lt.

(** The sum of the amounts of the entries of denomination [denom]: with
    pairwise distinct denominations, the amount of the one entry of that
    denomination, and zero if there is none. *)
Fixpoint sumOf (denom : string) (coins : DecCoins) : Dec :=
  match coins with
  | [] => ZeroDec
  | coin :: rest =>
    if String.eqb (Denom coin) denom then Dec_Add (Amount coin) (sumOf denom rest)
    else sumOf denom rest
  end.

(** The same for integer coins. *)
Fixpoint Coins_sumOf (denom : string) (coins : Coins) : Int :=
  match coins with
  | [] => 0
  | coin :: rest =>
    if String.eqb (Coin_Denom coin) denom then Coin_Amount coin + Coins_sumOf denom rest
    else Coins_sumOf denom rest
  end.

(** Each denomination is strictly below the next one. *)
Fixpoint increasing (coins : DecCoins) : bool :=
  match coins with
  | [] => true
  | coin :: rest =>
    match rest with
    | [] => true
    | next :: _ => String.ltb (Denom coin) (Denom next) && increasing rest
    end
  end.

(** No two entries have the same denomination. *)
Fixpoint distinct (coins : DecCoins) : bool :=
  match coins with
  | [] => true
  | coin :: rest =>
    negb (existsb (fun c => String.eqb (Denom c) (Denom coin)) rest) && distinct rest
  end.

(** No denomination is above the next one. *)
Fixpoint sorted (coins : DecCoins) : bool :=
  match coins with
  | [] => true
  | coin :: rest =>
    match rest with
    | [] => true
    | next :: _ => String.leb (Denom coin) (Denom next) && sorted rest
    end
  end.

(** The sorted merge of the spec, section 4.3: the result of
    [DecCoins.Plus] without the loop state. *)
Fixpoint merge (A : DecCoins) : DecCoins -> DecCoins :=
  fix mergeB (B : DecCoins) {struct B} : DecCoins :=
    match A, B with
    | [], _ => B
    | _ :: _, [] => A
    | a :: A', b :: B' =>
      match String.compare (Denom a) (Denom b) with
      | Lt => a :: merge A' B
      | Eq =>
        if Dec_IsZero (Dec_Add (Amount a) (Amount b)) then merge A' B'
        else mkDecCoin (Denom a) (Dec_Add (Amount a) (Amount b)) :: merge A' B'
      | Gt => b :: mergeB B'
      end
    end.


(** The per-entry results of truncation. *)
Definition truncatedCoin (coin : DecCoin) : Coin :=
  mkCoin (Denom coin) (Dec_TruncateInt (Amount coin)).

Definition changeCoin (coin : DecCoin) : DecCoin :=
  mkDecCoin (Denom coin)
    (Dec_Sub (Amount coin) (NewDecFromInt (Dec_TruncateInt (Amount coin)))).

(** The strict and the weak order of the denominations, on whole
    lists. *)
Definition ltDenom (a b : DecCoin) : Prop := slt (Denom a) (Denom b).

Definition ascending (coins : DecCoins) : Prop := StronglySorted ltDenom coins.

Definition above (d : string) (coins : DecCoins) : Prop :=
  Forall (fun c => slt d (Denom c)) coins.

Definition leDenom (a b : DecCoin) : Prop := String.leb (Denom a) (Denom b) = true.

Definition nondecreasing (coins : DecCoins) : Prop := StronglySorted leDenom coins.

(** The remainders the truncation loop accumulates from [changeSum]. *)
Definition changes (coins : DecCoins) (changeSum : DecCoins) : DecCoins :=
  fold_left (fun acc coin => merge acc [changeCoin coin]) coins changeSum.

(** The set operation [f] applies the scalar operation [op] to every
    amount: the result has the length of the input, its entry at
    every position is the input's entry with [op] applied to the amount,
    and an entry whose amount becomes zero is still there. *)
Definition appliesToEveryAmount (op : Dec -> Dec -> Dec)
  (f : DecCoins -> Dec -> DecCoins) : Prop :=
  forall (coins : DecCoins) (d : Dec),
    List.length (f coins d) = List.length coins /\
    (forall i,
        nth_error (f coins d) i
        = option_map (fun c => mkDecCoin (Denom c) (op (Amount c) d))
                     (nth_error coins i)) /\
    (forall i c,
        nth_error coins i = Some c ->
        Dec_IsZero (op (Amount c) d) = true ->
        nth_error (f coins d) i = Some (mkDecCoin (Denom c) ZeroDec)).

(** ** Display *)

(** [strings.Join(elems, sep)]. *)
Fixpoint strings_Join (elems : list string) (sep : string) : string :=
  match elems with
  | [] => EmptyString
  | [e] => e
  | e :: rest => String.append e (String.append sep (strings_Join rest sep))
  end.

Section Display.

(** [Dec.String], which [%v] calls; its source is not among the
    sources. *)
Variable Dec_String : Dec -> string.

(** [DecCoin.String], lines 134-139. *)
Definition DecCoin_String (coin : DecCoin) : string :=
  if negb (DecCoin_IsPositive coin) then EmptyString
  else String.append (Dec_String (Amount coin)) (Denom coin).

(** The loop of [DecCoins.String], lines 162-167. *)
Fixpoint stringLoop (coins : DecCoins) (out : list string) : list string :=
  match coins with
  | [] => out
  | coin :: rest =>
    if DecCoin_IsPositive coin then stringLoop rest (out ++ [DecCoin_String coin])
    else stringLoop rest out
  end.

(** [DecCoins.String], lines 157-170. *)
Definition DecCoins_String (coins : DecCoins) : string :=
  if Nat.eqb (List.length coins) 0 then EmptyString
  else strings_Join (stringLoop coins []) ",".

End Display.

(** ** Further notions the properties are stated with *)

(** No entry has the amount zero. *)
Definition zeroFree (coins : DecCoins) : bool :=
  forallb (fun c => negb (Dec_IsZero (Amount c))) coins.

(** Some entry has the denomination [denom]. *)
Definition hasDenom (denom : string) (coins : DecCoins) : bool :=
  existsb (fun c => String.eqb (Denom c) denom) coins.

(** The integer coin of a decimal coin below one. *)
Definition zeroCoin (coin : DecCoin) : Coin := mkCoin (Denom coin) 0.

(** The decimal coin of an integer coin, unchecked. *)
Definition decOfCoin (coin : Coin) : DecCoin :=
  mkDecCoin (Coin_Denom coin) (NewDecFromInt (Coin_Amount coin)).

(** Lookup in the result of the set operation [f] agrees with the scalar
    operation [op]: [f] keeps the order of the denominations, and on a
    set with strictly increasing denominations [AmountOf] finds [op] of
    an entry's amount under the entry's denomination and zero under a
    denomination the set does not have. *)
Definition lookupCommutes (op : Dec -> Dec -> Dec)
  (f : DecCoins -> Dec -> DecCoins) : Prop :=
  forall (A : DecCoins) (x : Dec),
    increasing (f A x) = increasing A /\
    (increasing A = true ->
     (forall c, In c A -> DecCoins_AmountOf (f A x) (Denom c) = op (Amount c) x) /\
     (forall d, hasDenom d A = false -> DecCoins_AmountOf (f A x) d = ZeroDec)).

(** The string has no separator of [ParseDecCoins]. *)
Fixpoint noSeparator (s : string) : bool :=
  match s with
  | EmptyString => true
  | String c s' =>
    negb (Ascii.eqb c ","%char || Ascii.eqb c ";"%char) && noSeparator s'
  end.

(** ** An instance of the package, for running the definitions *)

Module Sample.

Fixpoint anyByte (p : ascii -> bool) (s : string) : bool :=
  match s with
  | EmptyString => false
  | String a s' => p a || anyByte p s'
  end.

Definition allBytes (p : ascii -> bool) (s : string) : bool :=
  negb (anyByte (fun a => negb (p a)) s).

Definition between (lo hi : nat) (a : ascii) : bool :=
  (Nat.leb lo (nat_of_ascii a) && Nat.leb (nat_of_ascii a) hi)%bool.

Definition isDigit : ascii -> bool := between 48 57.
Definition isUpper : ascii -> bool := between 65 90.
Definition isLower : ascii -> bool := between 97 122.

(** Modelled from the spec: the two denomination checks, which are
    not among the sources ("denom ... must not contain whitespace
    internally"; [IsValid]'s comment: "Denom does not contain upper case
    characters"), on ASCII. *)
Definition containsSpace (denom : string) : error :=
  if anyByte (Ascii.eqb " "%char) denom
  then Some (errors_New "denom cannot contain space characters")
  else None.

Definition denomCase (denom : string) : error :=
  if anyByte isUpper denom
  then Some (errors_New "denom cannot contain upper case characters")
  else None.

(** The longest prefix of [s] whose bytes satisfy [p], and the rest. *)
Fixpoint span (p : ascii -> bool) (s : string) : string * string :=
  match s with
  | EmptyString => (EmptyString, EmptyString)
  | String a s' =>
    if p a then let (pre, post) := span p s' in (String a pre, post)
    else (EmptyString, s)
  end.

(** Modelled from the spec: the expression [reDecCoin], which is not
    among the sources ("an amount string is <decimal-number><denom>"):
    digits with an optional fraction, optional blanks, then a
    denomination of lower-case letters and digits. *)
Definition findSubmatch (s : string) : option (string * string) :=
  let (amountStr, rest) := span (fun a => isDigit a || Ascii.eqb a "."%char) s in
  let (_, denomStr) := span (Ascii.eqb " "%char) rest in
  if (Nat.ltb 0 (String.length amountStr) && Nat.ltb 0 (String.length denomStr)
      && allBytes (fun a => isLower a || isDigit a) denomStr)%bool
  then Some (amountStr, denomStr)
  else None.

Fixpoint digitsValue (acc : Z) (s : string) : Z :=
  match s with
  | EmptyString => acc
  | String a s' => digitsValue (10 * acc + (Z.of_nat (nat_of_ascii a) - 48)) s'
  end.

(** Modelled from the spec: [NewDecFromStr], which is not among the
    sources ("optional sign, digits, optional . and fractional
    digits"), for unsigned literals of at most [Precision] fractional
    digits. *)
Definition decFromStr (s : string) : Dec * error :=
  let (intStr, rest) := span isDigit s in
  let bad := (ZeroDec, Some (errors_New "bad decimal")) in
  if Nat.eqb (String.length intStr) 0 then bad
  else
    match rest with
    | EmptyString => (digitsValue 0 intStr * precisionReuse, None)
    | String dot fracStr =>
      if (Ascii.eqb dot "."%char && allBytes isDigit fracStr
          && Nat.ltb 0 (String.length fracStr)
          && Nat.leb (String.length fracStr) (Z.to_nat Precision))%bool
      then (digitsValue 0 intStr * precisionReuse
            + digitsValue 0 fracStr * 10 ^ (Precision - Z.of_nat (String.length fracStr)),
            None)
      else bad
    end.

(** Modelled from the spec: the scalar products and quotients of [Dec],
    which are not among the sources ("a truncating variant
    that discards any precision beyond the fixed width, always rounding
    toward zero"); the instance takes the truncating variant for both. *)
Definition mulTruncate (d d2 : Dec) : Dec := Z.quot (d * d2) precisionReuse.
Definition quoTruncate (d d2 : Dec) : Dec := Z.quot (d * precisionReuse) d2.

Definition package : Package := {|
  validateCoinDenomContainsSpace := containsSpace;
  validateCoinDenomCase := denomCase;
  reDecCoin_FindStringSubmatch := findSubmatch;
  NewDecFromStr := decFromStr;
  Dec_Mul := mulTruncate;
  Dec_MulTruncate := mulTruncate;
  Dec_Quo := quoTruncate;
  Dec_QuoTruncate := quoTruncate
|}.

(** [d] tenths as a [Dec]. *)
Definition tenths (d : Z) : Dec := d * 10 ^ (Precision - 1).

End Sample.

Module Examples.

Definition atom (amount : Dec) : DecCoin := mkDecCoin "atom" amount.
Definition btc (amount : Dec) : DecCoin := mkDecCoin "btc" amount.
Definition eth (amount : Dec) : DecCoin := mkDecCoin "eth" amount.

End Examples.


(** * Properties *)

(** ** Byte-wise order of strings *)

Lemma ascii_compare_refl (a : ascii) : Ascii.compare a a = Eq.
Proof. unfold Ascii.compare. apply N.compare_refl. Qed.

Lemma compare_refl (s : string) : String.compare s s = Eq.
Proof.
  induction s as [|a s IH]; simpl; [reflexivity|].
  rewrite ascii_compare_refl. exact IH.
Qed.

Lemma compare_Eq (a b : string) : String.compare a b = Eq <-> a = b.
Proof.
  split; [apply String.compare_eq_iff | intros ->; apply compare_refl].
Qed.

Lemma compare_Gt (a b : string) : String.compare a b = Gt <-> slt b a.
Proof.
  unfold slt. rewrite (String.compare_antisym b a).
  destruct (String.compare a b); simpl; split; congruence.
Qed.

Lemma ascii_compare_trans (a b c : ascii) :
  Ascii.compare a b = Lt -> Ascii.compare b c = Lt -> Ascii.compare a c = Lt.
Proof. unfold Ascii.compare. rewrite !N.compare_lt_iff. lia. Qed.

Lemma slt_trans (a b c : string) : slt a b -> slt b c -> slt a c.
Proof.
  unfold slt. revert b c.
  induction a as [|x a IH]; intros [|y b] [|z c]; simpl; try congruence.
  destruct (Ascii.compare x y) eqn:Hxy; try discriminate.
  - apply Ascii.compare_eq_iff in Hxy. subst y.
    destruct (Ascii.compare x z); try congruence. apply IH.
  - destruct (Ascii.compare y z) eqn:Hyz; try discriminate.
    + apply Ascii.compare_eq_iff in Hyz. subst z. rewrite Hxy. reflexivity.
    + rewrite (ascii_compare_trans _ _ _ Hxy Hyz). reflexivity.
Qed.

Lemma slt_irrefl (a : string) : ~ slt a a.
Proof. unfold slt. rewrite compare_refl. discriminate. Qed.

Lemma slt_neq (a b : string) : slt a b -> a <> b.
Proof. intros H ->. exact (slt_irrefl _ H). Qed.

Lemma slt_asym (a b : string) : slt a b -> ~ slt b a.
Proof. intros H H'. exact (slt_irrefl _ (slt_trans _ _ _ H H')). Qed.

Lemma ltb_slt (a b : string) : String.ltb a b = true <-> slt a b.
Proof.
  unfold String.ltb, slt. destruct (String.compare a b); split; congruence.
Qed.

Lemma leb_not_slt (a b : string) : String.leb a b = true <-> ~ slt b a.
Proof.
  rewrite <- compare_Gt. unfold String.leb.
  destruct (String.compare a b); split; congruence.
Qed.

Lemma leb_cases (a b : string) : String.leb a b = true <-> slt a b \/ a = b.
Proof.
  rewrite <- compare_Eq. unfold String.leb, slt.
  destruct (String.compare a b); split; intros; try tauto; try congruence.
  destruct H; discriminate.
Qed.

Lemma slt_total (a b : string) : slt a b \/ a = b \/ slt b a.
Proof.
  destruct (String.compare a b) eqn:E.
  - right. left. apply compare_Eq. exact E.
  - left. exact E.
  - right. right. apply compare_Gt. exact E.
Qed.

Section Properties.

Context {pkg : Package}.

(** ** The merge loop *)

Lemma DecCoin_Plus_same (a b : DecCoin) :
  Denom a = Denom b ->
  DecCoin_Plus a b = Return (mkDecCoin (Denom a) (Dec_Add (Amount a) (Amount b))).
Proof.
  intros H. unfold DecCoin_Plus. rewrite H, String.eqb_refl. reflexivity.
Qed.

Lemma plusLoop_merge (A : DecCoins) :
  forall (B : DecCoins) (sum : list DecCoin),
    plusLoop A sum B = Return (sum ++ merge A B).
Proof.
  induction A as [|a A IHA].
  - intros [|b B] sum; simpl; [rewrite app_nil_r|]; reflexivity.
  - induction B as [|b B IHB]; intros sum.
    + reflexivity.
    + simpl. unfold strings.Compare.
      destruct (String.compare (Denom a) (Denom b)) eqn:E.
      * apply compare_Eq in E.
        destruct (Dec_IsZero (Dec_Add (Amount a) (Amount b))).
        -- apply IHA.
        -- rewrite (DecCoin_Plus_same a b E). simpl.
           rewrite IHA, <- app_assoc. reflexivity.
      * rewrite IHA, <- app_assoc. reflexivity.
      * specialize (IHB (sum ++ [b])). simpl in IHB.
        rewrite <- app_assoc in IHB. exact IHB.
Qed.

Lemma DecCoins_Plus_merge (A B : DecCoins) :
  DecCoins_Plus A B = Return (merge A B).
Proof. unfold DecCoins_Plus. rewrite plusLoop_merge. reflexivity. Qed.

Lemma merge_nil_r (A : DecCoins) : merge A [] = A.
Proof. destruct A; reflexivity. Qed.

Lemma merge_nil_l (B : DecCoins) : merge [] B = B.
Proof. destruct B; reflexivity. Qed.

Lemma merge_cons (a b : DecCoin) (A B : DecCoins) :
  merge (a :: A) (b :: B) =
  match String.compare (Denom a) (Denom b) with
  | Lt => a :: merge A (b :: B)
  | Eq =>
    if Dec_IsZero (Dec_Add (Amount a) (Amount b)) then merge A B
    else mkDecCoin (Denom a) (Dec_Add (Amount a) (Amount b)) :: merge A B
  | Gt => b :: merge (a :: A) B
  end.
Proof. reflexivity. Qed.

Ltac dec_unfold :=
  unfold Dec_IsZero, Dec_Add, Dec_Sub, Dec_Neg, Dec_LT, Dec_LTE, Dec_IsPositive,
    Dec_IsNegative, ZeroDec in *.

(** Induction over both arguments of [merge]. *)
Lemma merge_ind2 (P : DecCoins -> DecCoins -> Prop) :
  (forall B, P [] B) ->
  (forall a A, P (a :: A) []) ->
  (forall a A b B,
      P A (b :: B) -> P A B -> P (a :: A) B -> P (a :: A) (b :: B)) ->
  forall A B, P A B.
Proof.
  intros Hnil Hr Hstep. induction A as [|a A IHA]; [exact Hnil|].
  induction B as [|b B IHB]; [apply Hr|].
  apply Hstep; auto.
Qed.

Lemma merge_sumOf (d : string) (A B : DecCoins) :
  sumOf d (merge A B) = Dec_Add (sumOf d A) (sumOf d B).
Proof.
  revert A B. apply merge_ind2.
  - intros B. rewrite merge_nil_l. reflexivity.
  - intros a A. rewrite merge_nil_r. simpl. dec_unfold. lia.
  - intros a A b B IH1 IH2 IH3. rewrite merge_cons.
    destruct (String.compare (Denom a) (Denom b)) eqn:E.
    + apply compare_Eq in E.
      destruct (Dec_IsZero (Dec_Add (Amount a) (Amount b))) eqn:Z;
        simpl; rewrite IH2, <- E; dec_unfold;
        destruct (String.eqb (Denom a) d); lia.
    + simpl in *. rewrite IH1. simpl. dec_unfold.
      destruct (String.eqb (Denom a) d), (String.eqb (Denom b) d); lia.
    + simpl in *. rewrite IH3. simpl. dec_unfold.
      destruct (String.eqb (Denom a) d), (String.eqb (Denom b) d); lia.
Qed.

Lemma merge_comm (A B : DecCoins) : merge A B = merge B A.
Proof.
  revert A B. apply merge_ind2.
  - intros B. rewrite merge_nil_l, merge_nil_r. reflexivity.
  - intros a A. rewrite merge_nil_l, merge_nil_r. reflexivity.
  - intros a A b B IH1 IH2 IH3. rewrite (merge_cons a b), (merge_cons b a).
    rewrite (String.compare_antisym (Denom b) (Denom a)).
    destruct (String.compare (Denom a) (Denom b)) eqn:E; cbn [CompOpp].
    + apply compare_Eq in E. rewrite IH2, E.
      unfold Dec_Add. rewrite (Z.add_comm (Amount b) (Amount a)). reflexivity.
    + rewrite IH1. reflexivity.
    + rewrite IH3. reflexivity.
Qed.

(** Every entry of a merge is an entry of an argument or the sum of two
    entries of one denomination. *)
Lemma merge_In (c : DecCoin) (A B : DecCoins) :
  In c (merge A B) ->
  In c A \/ In c B \/
  exists a b, In a A /\ In b B /\ Denom a = Denom b /\
              c = mkDecCoin (Denom a) (Dec_Add (Amount a) (Amount b)) /\
              Dec_IsZero (Dec_Add (Amount a) (Amount b)) = false.
Proof.
  revert A B. apply (merge_ind2 (fun A B => In c (merge A B) -> _)).
  - intros B. rewrite merge_nil_l. auto.
  - intros a A. rewrite merge_nil_r. auto.
  - intros a A b B IH1 IH2 IH3. rewrite merge_cons.
    destruct (String.compare (Denom a) (Denom b)) eqn:E.
    + apply compare_Eq in E.
      assert (Ht : In c (merge A B) ->
                   In c (a :: A) \/ In c (b :: B) \/
                   exists a0 b0, In a0 (a :: A) /\ In b0 (b :: B) /\
                     Denom a0 = Denom b0 /\
                     c = mkDecCoin (Denom a0) (Dec_Add (Amount a0) (Amount b0)) /\
                     Dec_IsZero (Dec_Add (Amount a0) (Amount b0)) = false).
      { intros H. destruct (IH2 H) as [H1|[H1|(a0 & b0 & Ha & Hb & H1)]].
        - left. now right.
        - right. left. now right.
        - right. right. exists a0, b0. repeat split; try tauto; now right. }
      destruct (Dec_IsZero (Dec_Add (Amount a) (Amount b))) eqn:Z; [exact Ht|].
      intros [H|H]; [|exact (Ht H)].
      right. right. exists a, b. repeat split; auto; now left.
    + intros [H|H]; [left; now left|].
      destruct (IH1 H) as [H1|[H1|(a0 & b0 & Ha & Hb & H1)]].
      * left. now right.
      * right. now left.
      * right. right. exists a0, b0. repeat split; try tauto. now right.
    + intros [H|H]; [right; left; now left|].
      destruct (IH3 H) as [H1|[H1|(a0 & b0 & Ha & Hb & H1)]].
      * now left.
      * right. left. now right.
      * right. right. exists a0, b0. repeat split; try tauto. now right.
Qed.

(** ** Ascending denominations *)

Lemma ascending_cons (c : DecCoin) (coins : DecCoins) :
  ascending (c :: coins) <-> ascending coins /\ above (Denom c) coins.
Proof.
  split.
  - intros H. inversion H; subst. split; assumption.
  - intros [H1 H2]. constructor; assumption.
Qed.

Lemma above_trans (d e : string) (coins : DecCoins) :
  slt d e -> above e coins -> above d coins.
Proof.
  intros Hde H. unfold above in *. rewrite Forall_forall in *.
  intros c Hc. exact (slt_trans _ _ _ Hde (H c Hc)).
Qed.

Lemma increasing_cons (c : DecCoin) (coins : DecCoins) :
  increasing (c :: coins) = true <->
  match coins with [] => True | next :: _ => slt (Denom c) (Denom next) end /\
  increasing coins = true.
Proof.
  destruct coins as [|n coins].
  - simpl. tauto.
  - cbn [increasing]. rewrite andb_true_iff, ltb_slt. reflexivity.
Qed.

Lemma increasing_ascending (coins : DecCoins) :
  increasing coins = true <-> ascending coins.
Proof.
  induction coins as [|c coins IH].
  - split; [constructor | reflexivity].
  - rewrite increasing_cons, ascending_cons, IH.
    destruct coins as [|n coins].
    + split; intros [_ H]; (split; [|constructor]); try exact I.
      constructor.
    + split.
      * intros [Hlt Hasc]. split; [exact Hasc|].
        apply ascending_cons in Hasc. destruct Hasc as [_ Hab].
        constructor; [exact Hlt|]. exact (above_trans _ _ _ Hlt Hab).
      * intros [Hasc Hab]. split; [|exact Hasc].
        inversion Hab; subst. assumption.
Qed.

Lemma merge_above (d : string) (A B : DecCoins) :
  above d A -> above d B -> above d (merge A B).
Proof.
  unfold above. rewrite !Forall_forall. intros HA HB c Hc.
  destruct (merge_In c A B Hc) as [H|[H|(a & b & Ha & Hb & E & -> & _)]]; auto.
  simpl. auto.
Qed.

Lemma merge_ascending (A B : DecCoins) :
  ascending A -> ascending B -> ascending (merge A B).
Proof.
  revert A B. apply (merge_ind2 (fun A B => ascending A -> ascending B -> _)).
  - intros B _ H. rewrite merge_nil_l. exact H.
  - intros a A H _. rewrite merge_nil_r. exact H.
  - intros a A b B IH1 IH2 IH3 HA HB. rewrite merge_cons.
    pose proof HA as HA'. pose proof HB as HB'.
    apply ascending_cons in HA'. destruct HA' as [HA1 HA2].
    apply ascending_cons in HB'. destruct HB' as [HB1 HB2].
    destruct (String.compare (Denom a) (Denom b)) eqn:E.
    + apply compare_Eq in E.
      assert (Hm : ascending (merge A B)) by auto.
      destruct (Dec_IsZero (Dec_Add (Amount a) (Amount b))); [exact Hm|].
      apply ascending_cons. split; [exact Hm|]. simpl.
      apply merge_above; [exact HA2|]. rewrite E. exact HB2.
    + apply ascending_cons. split; [auto|].
      apply merge_above; [exact HA2|].
      constructor; [exact E|]. exact (above_trans _ _ _ E HB2).
    + apply compare_Gt in E. apply ascending_cons. split; [auto|].
      apply merge_above; [|exact HB2].
      constructor; [exact E|]. exact (above_trans _ _ _ E HA2).
Qed.

Lemma sumOf_absent (d : string) (coins : DecCoins) :
  (forall c, In c coins -> Denom c <> d) -> sumOf d coins = ZeroDec.
Proof.
  induction coins as [|c coins IH]; intros H; [reflexivity|].
  simpl. destruct (String.eqb_spec (Denom c) d) as [E|_].
  - exfalso. apply (H c); [now left | exact E].
  - apply IH. intros c' Hc'. apply H. now right.
Qed.

Lemma sumOf_above (d : string) (coins : DecCoins) :
  above d coins -> sumOf d coins = ZeroDec.
Proof.
  intros H. apply sumOf_absent. intros c Hc E.
  unfold above in H. rewrite Forall_forall in H.
  apply (slt_irrefl d). rewrite <- E at 2. exact (H c Hc).
Qed.

Lemma sumOf_head (c : DecCoin) (coins : DecCoins) :
  ascending (c :: coins) -> sumOf (Denom c) (c :: coins) = Amount c.
Proof.
  intros H. apply ascending_cons in H. destruct H as [_ H].
  simpl. rewrite String.eqb_refl, (sumOf_above _ _ H). dec_unfold. lia.
Qed.

Lemma sumOf_entry (r : DecCoin) (coins : DecCoins) :
  ascending coins -> In r coins -> sumOf (Denom r) coins = Amount r.
Proof.
  induction coins as [|c coins IH]; intros Hasc Hin; [destruct Hin|].
  destruct Hin as [->|Hin]; [apply sumOf_head; exact Hasc|].
  apply ascending_cons in Hasc. destruct Hasc as [Hasc Hab].
  simpl. destruct (String.eqb_spec (Denom c) (Denom r)) as [E|_].
  - exfalso. unfold above in Hab. rewrite Forall_forall in Hab.
    apply (slt_irrefl (Denom c)). rewrite E at 2. exact (Hab r Hin).
  - apply IH; assumption.
Qed.

(** Two ascending sets without zero entries that agree on every
    denomination are the same list. *)
Lemma ascending_ext (X : DecCoins) :
  forall Y : DecCoins,
    ascending X -> ascending Y ->
    Forall (fun c => Amount c <> ZeroDec) X ->
    Forall (fun c => Amount c <> ZeroDec) Y ->
    (forall d, sumOf d X = sumOf d Y) ->
    X = Y.
Proof.
  induction X as [|x X IH]; intros [|y Y] HX HY NX NY Hsum.
  - reflexivity.
  - exfalso. specialize (Hsum (Denom y)). rewrite (sumOf_head y Y HY) in Hsum.
    inversion NY; subst. simpl in Hsum. congruence.
  - exfalso. specialize (Hsum (Denom x)). rewrite (sumOf_head x X HX) in Hsum.
    inversion NX; subst. simpl in Hsum. congruence.
  - pose proof HX as HX'. pose proof HY as HY'.
    apply ascending_cons in HX'. destruct HX' as [HX1 HX2].
    apply ascending_cons in HY'. destruct HY' as [HY1 HY2].
    inversion NX as [|? ? Nx NX']; subst. inversion NY as [|? ? Ny NY']; subst.
    destruct (slt_total (Denom x) (Denom y)) as [L|[E|L]].
    + exfalso. pose proof (Hsum (Denom x)) as H.
      rewrite (sumOf_head x X HX) in H.
      rewrite (sumOf_above (Denom x) (y :: Y)) in H; [congruence|].
      constructor; [exact L|]. exact (above_trans _ _ _ L HY2).
    + assert (Ea : Amount x = Amount y).
      { pose proof (Hsum (Denom x)) as H.
        rewrite (sumOf_head x X HX) in H. rewrite E in H.
        rewrite (sumOf_head y Y HY) in H. exact H. }
      assert (x = y) by (destruct x, y; simpl in *; congruence). subst y.
      f_equal. apply IH; auto.
      intros d. specialize (Hsum d). simpl in Hsum.
      destruct (String.eqb_spec (Denom x) d) as [Ed|_]; [|exact Hsum].
      subst d. rewrite (sumOf_above _ _ HX2), (sumOf_above _ _ HY2). reflexivity.
    + exfalso. pose proof (Hsum (Denom y)) as H.
      rewrite (sumOf_head y Y HY) in H.
      rewrite (sumOf_above (Denom y) (x :: X)) in H; [congruence|].
      constructor; [exact L|]. exact (above_trans _ _ _ L HX2).
Qed.

(** ** Validation *)

Lemma validateDecCoinAmount_strict (amount : Dec) :
  validateDecCoinAmount amount true = None <-> ZeroDec < amount.
Proof.
  unfold validateDecCoinAmount. dec_unfold. simpl.
  destruct (Z.leb_spec amount 0); split; intros; try lia; congruence.
Qed.

Lemma validateDecCoinAmount_lax (amount : Dec) :
  validateDecCoinAmount amount false = None <-> ZeroDec <= amount.
Proof.
  unfold validateDecCoinAmount. dec_unfold. simpl.
  destruct (Z.ltb_spec amount 0); split; intros; try lia; congruence.
Qed.

Lemma Validate_None (coin : DecCoin) (strict : bool) :
  Validate coin strict = None <->
  validateDecCoinAmount (Amount coin) strict = None /\
  validateCoinDenomContainsSpace (Denom coin) = None /\
  validateCoinDenomCase (Denom coin) = None.
Proof.
  unfold Validate.
  destruct (validateDecCoinAmount (Amount coin) strict);
    [split; [discriminate | intros [H _]; discriminate]|].
  destruct (validateCoinDenomContainsSpace (Denom coin));
    [split; [discriminate | intros (_ & H & _); discriminate]|].
  destruct (validateCoinDenomCase (Denom coin));
    [split; [discriminate | intros (_ & _ & H); discriminate]|].
  tauto.
Qed.

Lemma Validate_strict_lax (coin : DecCoin) :
  Validate coin true = None -> Validate coin false = None.
Proof.
  rewrite !Validate_None, validateDecCoinAmount_strict, validateDecCoinAmount_lax.
  intros (H & H1 & H2). repeat split; auto. lia.
Qed.

Lemma Validate_strict_positive (coin : DecCoin) :
  Validate coin true = None -> ZeroDec < Amount coin.
Proof.
  rewrite Validate_None, validateDecCoinAmount_strict. tauto.
Qed.

Lemma isValidLoop_iff (coins : DecCoins) :
  forall lowDenom : string,
    isValidLoop lowDenom coins = true <->
    Forall (fun c => Validate c true = None) coins /\
    above lowDenom coins /\ ascending coins.
Proof.
  induction coins as [|c coins IH]; intros low.
  - simpl. split; [intros _; repeat split; constructor | reflexivity].
  - simpl. destruct (Validate c true) eqn:V.
    + split; [discriminate|]. intros (H & _). inversion H; subst. congruence.
    + destruct (String.leb (Denom c) low) eqn:L.
      * split; [discriminate|]. intros (_ & H & _). inversion H; subst.
        apply leb_not_slt in L. contradiction.
      * assert (Hlt : slt low (Denom c)).
        { destruct (slt_total low (Denom c)) as [H|[H|H]]; [exact H| |].
          - assert (String.leb (Denom c) low = true)
              by (apply leb_cases; right; congruence). congruence.
          - assert (String.leb (Denom c) low = true)
              by (apply leb_cases; left; exact H). congruence. }
        rewrite IH. split.
        -- intros (H1 & H2 & H3). repeat split.
           ++ constructor; assumption.
           ++ constructor; [exact Hlt|]. exact (above_trans _ _ _ Hlt H2).
           ++ apply ascending_cons. split; assumption.
        -- intros (H1 & H2 & H3). inversion H1; subst.
           apply ascending_cons in H3. tauto.
Qed.

Lemma DecCoins_IsValid_iff (coins : DecCoins) :
  DecCoins_IsValid coins = true <->
  Forall (fun c => Validate c true = None) coins /\ ascending coins.
Proof.
  destruct coins as [|c0 [|c1 rest]]; simp DecCoins_IsValid.
  - split; [intros _; split; constructor | reflexivity].
  - destruct (Validate c0 true) eqn:V.
    + split; [discriminate|]. intros [H _]. inversion H; subst. congruence.
    + split; [|reflexivity]. intros _. split; repeat constructor. exact V.
  - destruct (Validate c0 true) eqn:V; cbn [negb].
    + split; [discriminate|]. intros [H _]. inversion H; subst. congruence.
    + rewrite isValidLoop_iff. split.
      * intros (H1 & H2 & H3). split; constructor; assumption.
      * intros [H1 H2]. inversion H1; subst. apply ascending_cons in H2. tauto.
Qed.

Lemma DecCoins_IsValid_increasing (coins : DecCoins) :
  DecCoins_IsValid coins = true <->
  forallb (fun c => passes (Validate c true)) coins = true /\
  increasing coins = true.
Proof.
  rewrite DecCoins_IsValid_iff, increasing_ascending, forallb_forall, Forall_forall.
  split; intros [H1 H2]; (split; [|exact H2]); intros c Hc; specialize (H1 c Hc).
  - rewrite H1. reflexivity.
  - destruct (Validate c true); [discriminate|reflexivity].
Qed.

(** ** Binary search *)

Lemma leDenom_trans (a b c : DecCoin) : leDenom a b -> leDenom b c -> leDenom a c.
Proof.
  unfold leDenom. rewrite !leb_cases.
  intros [H1|H1] [H2|H2].
  - left. exact (slt_trans _ _ _ H1 H2).
  - left. rewrite <- H2. exact H1.
  - left. rewrite H1. exact H2.
  - right. congruence.
Qed.

Lemma sorted_nondecreasing (coins : DecCoins) :
  sorted coins = true <-> nondecreasing coins.
Proof.
  unfold nondecreasing. split.
  - intros H. apply Sorted_StronglySorted.
    + intros a b c. apply leDenom_trans.
    + induction coins as [|c coins IH]; [constructor|].
      destruct coins as [|n coins]; [repeat constructor|].
      cbn [sorted] in H. apply andb_true_iff in H. destruct H as [H1 H2].
      constructor; [apply IH; exact H2 | constructor; exact H1].
  - intros H. apply StronglySorted_Sorted in H.
    induction coins as [|c coins IH]; [reflexivity|].
    destruct coins as [|n coins]; [reflexivity|].
    inversion H as [|? ? Hs Hh]; subst. inversion Hh; subst.
    cbn [sorted]. apply andb_true_iff. split; [assumption|]. apply IH. exact Hs.
Qed.

Lemma ascending_nondecreasing (coins : DecCoins) :
  ascending coins -> nondecreasing coins.
Proof.
  induction 1 as [|c coins Hs IH Hf]; constructor; [exact IH|].
  rewrite Forall_forall in *. intros x Hx. apply leb_cases. left. exact (Hf x Hx).
Qed.

Lemma StronglySorted_middle {A : Type} (R : A -> A -> Prop) (l1 l2 : list A) (x : A) :
  StronglySorted R (l1 ++ x :: l2) ->
  StronglySorted R l1 /\ StronglySorted R l2 /\
  Forall (fun y => R y x) l1 /\ Forall (R x) l2.
Proof.
  induction l1 as [|a l1 IH]; simpl; intros H.
  - inversion H; subst. repeat split; try constructor; assumption.
  - inversion H as [|? ? Hs Hf]; subst. destruct (IH Hs) as (H1 & H2 & H3 & H4).
    repeat split; try assumption.
    + constructor; [exact H1|]. rewrite Forall_forall in *.
      intros y Hy. apply Hf. apply in_or_app. now left.
    + constructor; [|exact H3]. rewrite Forall_forall in Hf.
      apply Hf. apply in_or_app. right. now left.
Qed.

Lemma split_at_midIdx (c0 c1 : DecCoin) (rest : list DecCoin) :
  let coins := c0 :: c1 :: rest in
  coins = firstn (midIdx coins) coins
          ++ nth (midIdx coins) coins c0 :: skipn (S (midIdx coins)) coins.
Proof.
  intros coins. symmetry. apply firstn_skipn_middle.
  apply nth_error_nth'. apply Nat.div_lt; simpl; lia.
Qed.

(** On a sorted slice the search finds an entry of the denomination
    whenever there is one. *)
Lemma AmountOf_search (coins : DecCoins) (d : string) :
  nondecreasing coins ->
  (exists c, In c coins /\ Denom c = d /\ DecCoins_AmountOf coins d = Amount c) \/
  ((forall c, In c coins -> Denom c <> d) /\ DecCoins_AmountOf coins d = ZeroDec).
Proof.
  funelim (DecCoins_AmountOf coins d); intros Hs.
  - right. split; [intros c []|reflexivity].
  - simp DecCoins_AmountOf. destruct (String.eqb_spec (Denom coin) denom) as [E|N].
    + left. exists coin. split; [now left|]. split; [exact E|reflexivity].
    + right. split; [|reflexivity]. intros c [<-|[]]. exact N.
  - clear Heqcall.
    pose proof (split_at_midIdx c0 c1 rest) as Hsplit. cbv zeta in Hsplit.
    set (coins := c0 :: c1 :: rest) in *.
    set (m := nth (midIdx coins) coins c0) in *.
    set (L := firstn (midIdx coins) coins) in *.
    set (R := skipn (S (midIdx coins)) coins) in *.
    rewrite Hsplit in Hs. apply StronglySorted_middle in Hs.
    destruct Hs as (HL & HR & HLm & HmR). rewrite Forall_forall in HLm, HmR.
    assert (Hin : forall c, In c coins <-> In c L \/ c = m \/ In c R).
    { intros c. rewrite Hsplit at 1. rewrite in_app_iff. simpl. intuition. }
    destruct (String.ltb denom (Denom m)) eqn:Hlt.
    + apply ltb_slt in Hlt. destruct (H HL) as [(c & Hc & Hd & Ha)|[Hno Ha]].
      * left. exists c. split; [apply Hin; now left|]. split; assumption.
      * right. split; [|exact Ha]. intros c Hc. apply Hin in Hc.
        destruct Hc as [Hc|[->|Hc]]; [exact (Hno c Hc)| |].
        -- intros E. apply (slt_irrefl denom). rewrite <- E at 2. exact Hlt.
        -- intros E. specialize (HmR c Hc). unfold leDenom in HmR.
           apply leb_not_slt in HmR. apply HmR. rewrite E. exact Hlt.
    + destruct (String.eqb_spec denom (Denom m)) as [E|N].
      * left. exists m. split; [apply Hin; right; now left|]. split; congruence.
      * assert (Hgt : slt (Denom m) denom).
        { destruct (slt_total denom (Denom m)) as [X|[X|X]]; [|contradiction|exact X].
          apply ltb_slt in X. congruence. }
        destruct (H0 HR) as [(c & Hc & Hd & Ha)|[Hno Ha]].
        -- left. exists c. split; [apply Hin; right; now right|]. split; assumption.
        -- right. split; [|exact Ha]. intros c Hc. apply Hin in Hc.
           destruct Hc as [Hc|[->|Hc]]; [| |exact (Hno c Hc)].
           ++ intros E. specialize (HLm c Hc). unfold leDenom in HLm.
              apply leb_not_slt in HLm. apply HLm. rewrite E. exact Hgt.
           ++ intros E. apply N. symmetry. exact E.
Qed.

Lemma AmountOf_sumOf (coins : DecCoins) (d : string) :
  ascending coins -> DecCoins_AmountOf coins d = sumOf d coins.
Proof.
  intros H.
  destruct (AmountOf_search coins d (ascending_nondecreasing _ H))
    as [(c & Hc & Hd & Ha)|[Hno Ha]].
  - rewrite Ha, <- Hd. symmetry. apply sumOf_entry; assumption.
  - rewrite Ha. symmetry. apply sumOf_absent. exact Hno.
Qed.

(** ** Sets that pass [IsValid] *)

Lemma merge_valid (A B : DecCoins) :
  Forall (fun c => Validate c true = None) A ->
  Forall (fun c => Validate c true = None) B ->
  Forall (fun c => Validate c true = None) (merge A B).
Proof.
  rewrite !Forall_forall. intros HA HB c Hc.
  destruct (merge_In c A B Hc) as [H|[H|(a & b & Ha & Hb & E & -> & _)]]; auto.
  specialize (HA a Ha). specialize (HB b Hb).
  pose proof (Validate_strict_positive a HA).
  pose proof (Validate_strict_positive b HB).
  apply Validate_None in HA. apply Validate_None.
  simpl. rewrite validateDecCoinAmount_strict. dec_unfold.
  repeat split; try tauto. lia.
Qed.

Lemma valid_nonzero (A : DecCoins) :
  Forall (fun c => Validate c true = None) A ->
  Forall (fun c => Amount c <> ZeroDec) A.
Proof.
  apply Forall_impl. intros c H. apply Validate_strict_positive in H.
  dec_unfold. lia.
Qed.

Lemma merge_assoc_valid (A B C : DecCoins) :
  DecCoins_IsValid A = true -> DecCoins_IsValid B = true ->
  DecCoins_IsValid C = true ->
  merge (merge A B) C = merge A (merge B C).
Proof.
  rewrite !DecCoins_IsValid_iff. intros [VA SA] [VB SB] [VC SC].
  apply ascending_ext.
  - auto using merge_ascending.
  - auto using merge_ascending.
  - apply valid_nonzero. auto using merge_valid.
  - apply valid_nonzero. auto using merge_valid.
  - intros d. rewrite !merge_sumOf. dec_unfold. lia.
Qed.

Lemma ascending_map (f : DecCoin -> DecCoin) (A : DecCoins) :
  (forall c, Denom (f c) = Denom c) -> ascending A -> ascending (map f A).
Proof.
  intros Hf. induction 1 as [|c A Hs IH Hab]; simpl; constructor; [exact IH|].
  rewrite Forall_forall in *. intros x Hx. apply in_map_iff in Hx.
  destruct Hx as (y & <- & Hy). unfold ltDenom. rewrite !Hf. exact (Hab y Hy).
Qed.

Lemma merge_Negative (A : DecCoins) : merge A (DecCoins_Negative A) = [].
Proof.
  induction A as [|a A IH]; [reflexivity|].
  unfold DecCoins_Negative in *. cbn [map]. rewrite merge_cons. cbn [Denom Amount].
  rewrite compare_refl.
  replace (Dec_IsZero (Dec_Add (Amount a) (Dec_Neg (Amount a)))) with true.
  - exact IH.
  - dec_unfold. symmetry. apply Z.eqb_eq. lia.
Qed.

Lemma sumOf_Negative (d : string) (A : DecCoins) :
  sumOf d (DecCoins_Negative A) = Dec_Neg (sumOf d A).
Proof.
  induction A as [|a A IH]; [reflexivity|].
  simpl. rewrite IH. destruct (String.eqb (Denom a) d); dec_unfold; lia.
Qed.

(** ** The claims about the merge arithmetic *)

(** C2: for canonical [A] and [B] (both pass [IsValid]), [Plus(A, B)]
    returns a canonical set, the same one as [Plus(B, A)]; its amount of
    every denomination is the sum of the amounts in [A] and in [B]; and
    with a third canonical set [C], adding [C] to [Plus(A, B)] gives what
    adding [A] to [Plus(B, C)] gives. *)
Theorem Plus_canonical (A B : DecCoins) :
  DecCoins_IsValid A = true ->
  DecCoins_IsValid B = true ->
  exists S : DecCoins,
    DecCoins_Plus A B = Return S /\
    DecCoins_IsValid S = true /\
    DecCoins_Plus B A = Return S /\
    (forall d, DecCoins_AmountOf S d
               = Dec_Add (DecCoins_AmountOf A d) (DecCoins_AmountOf B d)) /\
    (forall C, DecCoins_IsValid C = true ->
       (ab <- DecCoins_Plus A B ;; DecCoins_Plus ab C)
       = (bc <- DecCoins_Plus B C ;; DecCoins_Plus A bc)).
Proof.
  intros HA HB. exists (merge A B).
  pose proof HA as HA'. pose proof HB as HB'.
  apply DecCoins_IsValid_iff in HA'. destruct HA' as [VA SA].
  apply DecCoins_IsValid_iff in HB'. destruct HB' as [VB SB].
  split; [apply DecCoins_Plus_merge|].
  split; [apply DecCoins_IsValid_iff; auto using merge_valid, merge_ascending|].
  split; [rewrite DecCoins_Plus_merge, merge_comm; reflexivity|].
  split.
  - intros d. rewrite !AmountOf_sumOf by auto using merge_ascending.
    apply merge_sumOf.
  - intros C HC. rewrite !DecCoins_Plus_merge. simpl.
    rewrite !DecCoins_Plus_merge. f_equal. apply merge_assoc_valid; assumption.
Qed.

(** C3: for canonical [A], [Minus(A, A)] is the empty set, and so is
    [Plus(A, Negative(A))]: the amounts of [A] and of [Negative(A)] sum
    to zero for every denomination, and the empty result is canonical. *)
Theorem Minus_self_empty (A : DecCoins) :
  DecCoins_IsValid A = true ->
  DecCoins_Minus A A = Return [] /\
  DecCoins_Plus A (DecCoins_Negative A) = Return [] /\
  (forall d, Dec_Add (DecCoins_AmountOf A d)
                     (DecCoins_AmountOf (DecCoins_Negative A) d) = ZeroDec) /\
  (forall d, DecCoins_AmountOf [] d = ZeroDec) /\
  DecCoins_IsValid [] = true.
Proof.
  intros HA. apply DecCoins_IsValid_iff in HA. destruct HA as [_ SA].
  unfold DecCoins_Minus. rewrite DecCoins_Plus_merge, merge_Negative.
  repeat split; try reflexivity.
  intros d. rewrite !AmountOf_sumOf.
  - rewrite sumOf_Negative. dec_unfold. lia.
  - apply ascending_map; [reflexivity | exact SA].
  - exact SA.
Qed.

(** ** The claims about lookup and validity *)

(** C4: on a set sorted by denomination, [AmountOf(d)] returns the amount
    of an entry whose denomination is [d] when there is one, and the zero
    decimal when there is none; when the denominations are also distinct
    this is the amount of the one such entry.  The empty set gives zero,
    and the set with the one entry ("atom", 5) gives 5 for "atom" and
    0 for "uatom". *)
Theorem AmountOf_sorted (coins : DecCoins) (d : string) :
  sorted coins = true ->
  ((exists c, In c coins /\ Denom c = d /\ DecCoins_AmountOf coins d = Amount c) \/
   ((forall c, In c coins -> Denom c <> d) /\ DecCoins_AmountOf coins d = ZeroDec)) /\
  (increasing coins = true -> DecCoins_AmountOf coins d = sumOf d coins) /\
  DecCoins_AmountOf [] d = ZeroDec /\
  DecCoins_AmountOf [mkDecCoin "atom" (NewDec 5)] "atom" = NewDec 5 /\
  DecCoins_AmountOf [mkDecCoin "atom" (NewDec 5)] "uatom" = ZeroDec.
Proof.
  intros H. apply sorted_nondecreasing in H.
  split; [apply AmountOf_search; exact H|].
  split; [intros Hi; apply AmountOf_sumOf, increasing_ascending; exact Hi|].
  repeat split.
Qed.

Lemma ascending_nth (coins : DecCoins) :
  forall (i j : nat) (a b : DecCoin),
    ascending coins -> (i < j)%nat ->
    nth_error coins i = Some a -> nth_error coins j = Some b ->
    slt (Denom a) (Denom b).
Proof.
  induction coins as [|c coins IH]; intros i j a b Hs Hij Ha Hb.
  - destruct i; discriminate.
  - apply ascending_cons in Hs. destruct Hs as [Hs Hab].
    destruct j as [|j]; [lia|]. simpl in Hb.
    destruct i as [|i].
    + simpl in Ha. injection Ha as <-. unfold above in Hab.
      rewrite Forall_forall in Hab. apply Hab. eapply nth_error_In. exact Hb.
    + simpl in Ha. apply (IH i j); auto. lia.
Qed.

(** C5: [IsValid] is false for a set that is not sorted by denomination,
    that has the same denomination at two positions, or that has an entry
    whose amount is zero or negative; it is true for the empty set, for
    one entry with a strictly positive amount and an admissible
    denomination, and for any sequence of such entries whose
    denominations strictly increase. *)
Theorem IsValid_rejects_accepts (coins : DecCoins) :
  (sorted coins = false -> DecCoins_IsValid coins = false) /\
  (forall i j a b,
      (i < j)%nat -> nth_error coins i = Some a -> nth_error coins j = Some b ->
      Denom a = Denom b -> DecCoins_IsValid coins = false) /\
  (forall c, In c coins -> Amount c <= ZeroDec -> DecCoins_IsValid coins = false) /\
  DecCoins_IsValid [] = true /\
  (forall c,
      ZeroDec < Amount c ->
      validateCoinDenomContainsSpace (Denom c) = None ->
      validateCoinDenomCase (Denom c) = None ->
      DecCoins_IsValid [c] = true) /\
  (Forall (fun c => ZeroDec < Amount c /\
                    validateCoinDenomContainsSpace (Denom c) = None /\
                    validateCoinDenomCase (Denom c) = None) coins ->
   increasing coins = true ->
   DecCoins_IsValid coins = true).
Proof.
  assert (Hval : forall c,
             ZeroDec < Amount c /\
             validateCoinDenomContainsSpace (Denom c) = None /\
             validateCoinDenomCase (Denom c) = None ->
             Validate c true = None).
  { intros c (H1 & H2 & H3). apply Validate_None.
    rewrite validateDecCoinAmount_strict. tauto. }
  repeat split.
  - intros Hu. destruct (DecCoins_IsValid coins) eqn:V; [|reflexivity].
    apply DecCoins_IsValid_iff in V. destruct V as [_ V].
    apply ascending_nondecreasing, sorted_nondecreasing in V. congruence.
  - intros i j a b Hij Ha Hb E.
    destruct (DecCoins_IsValid coins) eqn:V; [|reflexivity].
    apply DecCoins_IsValid_iff in V. destruct V as [_ V].
    pose proof (ascending_nth coins i j a b V Hij Ha Hb) as L.
    rewrite E in L. destruct (slt_irrefl _ L).
  - intros c Hc Hneg. destruct (DecCoins_IsValid coins) eqn:V; [|reflexivity].
    apply DecCoins_IsValid_iff in V. destruct V as [V _].
    rewrite Forall_forall in V. specialize (V c Hc).
    apply Validate_strict_positive in V. lia.
  - intros c H1 H2 H3. apply DecCoins_IsValid_iff. split; repeat constructor.
    apply Hval. tauto.
  - intros Hall Hinc. apply DecCoins_IsValid_iff. split.
    + revert Hall. apply Forall_impl. exact Hval.
    + apply increasing_ascending. exact Hinc.
Qed.

(** C9: when the denomination of a coin passes the two denomination
    checks, [Validate(false)] succeeds exactly when the amount is not
    negative and [Validate(true)] exactly when it is strictly positive;
    otherwise the result is the amount error, and a validating
    constructor then panics with it instead of returning a coin: it
    returns the coin unchanged or not at all. *)
Theorem Validate_amount (coin : DecCoin) :
  validateCoinDenomContainsSpace (Denom coin) = None ->
  validateCoinDenomCase (Denom coin) = None ->
  (Validate coin false = None <-> ZeroDec <= Amount coin) /\
  (Validate coin true = None <-> ZeroDec < Amount coin) /\
  (Amount coin < ZeroDec ->
   Validate coin false
   = Some (fmt_Errorf "%s: %s" [ArgError (errors_New "negative coin amount");
                                ArgDec (Amount coin)])) /\
  (Amount coin <= ZeroDec ->
   Validate coin true
   = Some (fmt_Errorf "%s: %s" [ArgError (errors_New "non-positive coin amount");
                                ArgDec (Amount coin)])) /\
  (forall strict,
      match Validate coin strict with
      | None => validated coin strict = Return coin
      | Some err => validated coin strict = Panic (PanicError err)
      end).
Proof.
  intros H1 H2.
  split; [rewrite Validate_None, validateDecCoinAmount_lax; tauto|].
  split; [rewrite Validate_None, validateDecCoinAmount_strict; tauto|].
  split; [|split].
  - intros Hn. unfold Validate, validateDecCoinAmount. dec_unfold. simpl.
    destruct (Z.ltb_spec (Amount coin) 0); [reflexivity|lia].
  - intros Hn. unfold Validate, validateDecCoinAmount. dec_unfold. simpl.
    destruct (Z.leb_spec (Amount coin) 0); [reflexivity|lia].
  - intros strict. unfold validated. destruct (Validate coin strict); reflexivity.
Qed.

(** C8: [DecCoin.Plus] and [DecCoin.Minus] of two coins of different
    denominations panic, with a message and not with a validation error;
    of two coins of one denomination they return the coin of that
    denomination with the amounts added or subtracted. *)
Theorem DecCoin_Plus_Minus_denom (a b : DecCoin) :
  (Denom a <> Denom b ->
   DecCoin_Plus a b = Panic (PanicString (denomDifferent (Denom a) (Denom b))) /\
   DecCoin_Minus a b = Panic (PanicString (denomDifferent (Denom a) (Denom b))) /\
   (forall err, DecCoin_Plus a b <> Panic (PanicError err)) /\
   (forall err, DecCoin_Minus a b <> Panic (PanicError err))) /\
  (Denom a = Denom b ->
   DecCoin_Plus a b = Return (mkDecCoin (Denom a) (Dec_Add (Amount a) (Amount b))) /\
   DecCoin_Minus a b = Return (mkDecCoin (Denom a) (Dec_Sub (Amount a) (Amount b)))).
Proof.
  unfold DecCoin_Plus, DecCoin_Minus. split; intros H.
  - apply String.eqb_neq in H. rewrite H. simpl.
    repeat split; intros; discriminate.
  - apply String.eqb_eq in H. rewrite H. simpl. split; reflexivity.
Qed.

Lemma map_appliesToEveryAmount (op : Dec -> Dec -> Dec) :
  appliesToEveryAmount op
    (fun coins d => map (fun c => mkDecCoin (Denom c) (op (Amount c) d)) coins).
Proof.
  intros coins d. split; [apply length_map|].
  split; [intros i; apply nth_error_map|].
  intros i c Hc Hz. rewrite nth_error_map, Hc. simpl.
  unfold Dec_IsZero in Hz. apply Z.eqb_eq in Hz. rewrite Hz. reflexivity.
Qed.

(** C6: [MulDec], [MulDecTruncate], [QuoDec] and [QuoDecTruncate] return
    a set as long as the input in which every entry keeps its position
    and denomination and has the amount [Mul], [MulTruncate], [Quo] or
    [QuoTruncate] gives for the original amount; entries whose amount
    becomes zero are kept. *)
Theorem scalar_operations_pointwise :
  appliesToEveryAmount Dec_Mul DecCoins_MulDec /\
  appliesToEveryAmount Dec_MulTruncate DecCoins_MulDecTruncate /\
  appliesToEveryAmount Dec_Quo DecCoins_QuoDec /\
  appliesToEveryAmount Dec_QuoTruncate DecCoins_QuoDecTruncate.
Proof.
  repeat split; apply map_appliesToEveryAmount.
Qed.

(** ** Truncation *)

Lemma precisionReuse_pos : 0 < precisionReuse.
Proof. reflexivity. Qed.

Lemma change_rem (amount : Dec) :
  Dec_Sub amount (NewDecFromInt (Dec_TruncateInt amount)) = Z.rem amount precisionReuse.
Proof.
  unfold Dec_Sub, NewDecFromInt, Dec_TruncateInt.
  pose proof (Z.quot_rem' amount precisionReuse). lia.
Qed.

Lemma change_bounds (amount : Dec) :
  ZeroDec <= amount ->
  0 <= Dec_TruncateInt amount /\
  ZeroDec <= Dec_Sub amount (NewDecFromInt (Dec_TruncateInt amount)) < OneDec.
Proof.
  intros H. rewrite change_rem. unfold ZeroDec, OneDec, Dec_TruncateInt in *.
  pose proof precisionReuse_pos.
  split; [apply Z.quot_pos; lia | apply Z.rem_bound_pos; lia].
Qed.


Lemma DecCoin_TruncateDecimal_valid (coin : DecCoin) :
  Validate coin false = None ->
  DecCoin_TruncateDecimal coin = Return (truncatedCoin coin, changeCoin coin).
Proof.
  intros V. apply Validate_None in V. destruct V as (Va & Vs & Vc).
  apply validateDecCoinAmount_lax in Va.
  destruct (change_bounds _ Va) as [Ht Hc].
  unfold DecCoin_TruncateDecimal, NewCoin.
  destruct (Z.ltb_spec (Dec_TruncateInt (Amount coin)) 0); [lia|].
  rewrite Vs, Vc. cbn [bind]. unfold NewDecCoinFromDec, validated.
  replace (Validate _ false) with (@None error_value); [reflexivity|].
  symmetry. apply Validate_None. cbn [Denom Amount].
  rewrite validateDecCoinAmount_lax. tauto.
Qed.



Lemma truncateLoop_valid (coins : DecCoins) :
  Forall (fun c => Validate c false = None) coins ->
  forall out changeSum,
    truncateLoop coins out changeSum
    = Return (out ++ map truncatedCoin coins, changes coins changeSum).
Proof.
  induction 1 as [|c coins V _ IH]; intros out cs.
  - simpl. rewrite app_nil_r. reflexivity.
  - cbn [truncateLoop]. rewrite (DecCoin_TruncateDecimal_valid c V). cbn [bind].
    rewrite DecCoins_Plus_merge. cbn [bind]. rewrite IH, <- app_assoc. reflexivity.
Qed.

Lemma changes_sumOf (d : string) (coins : DecCoins) :
  forall changeSum,
    sumOf d (changes coins changeSum)
    = Dec_Add (sumOf d changeSum) (sumOf d (map changeCoin coins)).
Proof.
  induction coins as [|c coins IH]; intros cs.
  - simpl. dec_unfold. lia.
  - cbn [changes fold_left]. fold (changes coins (merge cs [changeCoin c])).
    rewrite IH, merge_sumOf. simpl.
    destruct (String.eqb (Denom c) d); dec_unfold; lia.
Qed.

Lemma changes_ascending (coins : DecCoins) :
  forall changeSum, ascending changeSum -> ascending (changes coins changeSum).
Proof.
  induction coins as [|c coins IH]; intros cs H; [exact H|].
  cbn [changes fold_left]. apply IH. apply merge_ascending; [exact H|].
  repeat constructor.
Qed.

Lemma truncation_conserves (d : string) (coins : DecCoins) :
  Dec_Add (NewDecFromInt (Coins_sumOf d (map truncatedCoin coins)))
          (sumOf d (map changeCoin coins))
  = sumOf d coins.
Proof.
  induction coins as [|c coins IH]; [reflexivity|].
  simpl. destruct (String.eqb (Denom c) d); [|exact IH].
  revert IH. unfold NewDecFromInt. dec_unfold. intros IH. lia.
Qed.

Lemma distinct_cons (c : DecCoin) (coins : DecCoins) :
  distinct (c :: coins) = true ->
  (forall x, In x coins -> Denom x <> Denom c) /\ distinct coins = true.
Proof.
  cbn [distinct]. rewrite andb_true_iff, negb_true_iff. intros [H1 H2].
  split; [|exact H2]. intros x Hx E.
  assert (existsb (fun c0 => String.eqb (Denom c0) (Denom c)) coins = true).
  { apply existsb_exists. exists x. split; [exact Hx|]. apply String.eqb_eq, E. }
  congruence.
Qed.

Lemma sumOf_distinct_bounds (d : string) (bound : Z) (coins : DecCoins) :
  0 < bound ->
  distinct coins = true ->
  Forall (fun c => 0 <= Amount c < bound) coins ->
  0 <= sumOf d coins < bound.
Proof.
  intros Hb. induction coins as [|c coins IH]; intros Hd Hf.
  - simpl. unfold ZeroDec. lia.
  - apply distinct_cons in Hd. destruct Hd as [Hne Hd].
    inversion Hf as [|? ? Hc Hf']; subst. simpl.
    destruct (String.eqb_spec (Denom c) d) as [E|_]; [|auto].
    rewrite sumOf_absent; [dec_unfold; lia|].
    intros x Hx. rewrite <- E. apply Hne. exact Hx.
Qed.

Lemma distinct_map_changeCoin (coins : DecCoins) :
  distinct (map changeCoin coins) = distinct coins.
Proof.
  induction coins as [|c coins IH]; [reflexivity|].
  cbn [map distinct]. rewrite IH. f_equal. f_equal.
  clear IH. change (Denom (changeCoin c)) with (Denom c).
  generalize (Denom c). intros d.
  induction coins as [|x coins IH]; [reflexivity|].
  cbn [map existsb]. rewrite IH. reflexivity.
Qed.

Lemma forallb_passes (strict : bool) (coins : DecCoins) :
  forallb (fun c => passes (Validate c strict)) coins = true <->
  Forall (fun c => Validate c strict = None) coins.
Proof.
  rewrite forallb_forall, Forall_forall.
  split; intros H c Hc; specialize (H c Hc).
  - destruct (Validate c strict); [discriminate|reflexivity].
  - rewrite H. reflexivity.
Qed.

(** C1, amended: for a set whose entries all pass [Validate(false)] (no
    negative amount, admissible denominations) and have pairwise
    distinct denominations, [TruncateDecimal] returns a pair (I, R) such
    that for every denomination the integer amount in I plus the amount
    [AmountOf] finds in R is the amount of the set's entry of that
    denomination (which is what [AmountOf] finds when the set is also
    ascending), and every entry of R lies in [0, 1). *)
Theorem TruncateDecimal_conservation (D : DecCoins) :
  forallb (fun c => passes (Validate c false)) D = true ->
  distinct D = true ->
  exists (I : Coins) (R : DecCoins),
    DecCoins_TruncateDecimal D = Return (I, R) /\
    (forall d, Dec_Add (NewDecFromInt (Coins_sumOf d I)) (DecCoins_AmountOf R d)
               = sumOf d D) /\
    (increasing D = true -> forall d, DecCoins_AmountOf D d = sumOf d D) /\
    Forall (fun r => ZeroDec <= Amount r < OneDec) R.
Proof.
  intros HV HD. apply forallb_passes in HV.
  exists (map truncatedCoin D), (changes D []).
  assert (HR : ascending (changes D [])) by (apply changes_ascending; constructor).
  assert (HS : forall d, sumOf d (changes D []) = sumOf d (map changeCoin D)).
  { intros d. rewrite changes_sumOf. simpl. dec_unfold. lia. }
  split; [unfold DecCoins_TruncateDecimal; rewrite truncateLoop_valid; auto|].
  split; [|split].
  - intros d. rewrite AmountOf_sumOf by exact HR. rewrite HS.
    apply truncation_conserves.
  - intros Hi d. apply AmountOf_sumOf, increasing_ascending. exact Hi.
  - apply Forall_forall. intros r Hr.
    rewrite <- (sumOf_entry r _ HR Hr), HS. unfold ZeroDec, OneDec.
    apply sumOf_distinct_bounds.
    + exact precisionReuse_pos.
    + rewrite distinct_map_changeCoin. exact HD.
    + apply Forall_forall. intros x Hx. apply in_map_iff in Hx.
      destruct Hx as (c & <- & Hc). rewrite Forall_forall in HV.
      specialize (HV c Hc). apply Validate_None in HV.
      destruct HV as [HV _]. apply validateDecCoinAmount_lax in HV.
      exact (proj2 (change_bounds _ HV)).
Qed.


(** ** Parsing *)

Lemma stripAny_space (w rest : string) :
  In w strings.spaces ->
  strings.stripAny strings.spaces (String.append w rest) = Some rest.
Proof.
  unfold strings.spaces. cbn [map strings.bytes fold_right In].
  intros H.
  repeat (destruct H as [<-|H]; [reflexivity|]).
  destruct H.
Qed.

Lemma stripPrefix_nil (p s' : string) :
  strings.stripPrefix p EmptyString = Some s' -> s' = EmptyString.
Proof. destruct p; simpl; congruence. Qed.

Lemma stripAny_nil (ps : list string) (s' : string) :
  strings.stripAny ps EmptyString = Some s' -> s' = EmptyString.
Proof.
  induction ps as [|p ps IH]; [discriminate|].
  cbn [strings.stripAny].
  destruct (strings.stripPrefix p EmptyString) eqn:E; [|exact IH].
  intros [= <-]. exact (stripPrefix_nil _ _ E).
Qed.

Lemma trimLeft_nil (ps : list string) (fuel : nat) :
  strings.trimLeft ps fuel EmptyString = EmptyString.
Proof.
  induction fuel as [|fuel IH]; [reflexivity|]. cbn [strings.trimLeft].
  destruct (strings.stripAny ps EmptyString) eqn:E; [|reflexivity].
  apply stripAny_nil in E. subst. exact IH.
Qed.

Lemma length_append (a b : string) :
  String.length (String.append a b) = (String.length a + String.length b)%nat.
Proof. induction a as [|x a IH]; simpl; [reflexivity | rewrite IH; reflexivity]. Qed.

Lemma space_nonempty (w : string) :
  In w strings.spaces -> (1 <= String.length w)%nat.
Proof.
  unfold strings.spaces. cbn [map strings.bytes fold_right In].
  intros H.
  repeat (destruct H as [<-|H]; [simpl; lia|]).
  destruct H.
Qed.

Lemma trimLeft_spaces (ws : list string) :
  Forall (fun w => In w strings.spaces) ws ->
  forall fuel, (List.length ws <= fuel)%nat ->
    strings.trimLeft strings.spaces fuel (fold_right String.append EmptyString ws)
    = EmptyString.
Proof.
  induction 1 as [|w ws Hw _ IH]; intros fuel Hf.
  - apply trimLeft_nil.
  - destruct fuel as [|fuel]; [simpl in Hf; lia|].
    cbn [fold_right strings.trimLeft]. rewrite (stripAny_space _ _ Hw).
    apply IH. simpl in Hf. lia.
Qed.

Lemma spaces_length (ws : list string) :
  Forall (fun w => In w strings.spaces) ws ->
  (List.length ws <= String.length (fold_right String.append EmptyString ws))%nat.
Proof.
  induction 1 as [|w ws Hw _ IH]; [simpl; lia|].
  cbn [fold_right]. rewrite length_append.
  pose proof (space_nonempty w Hw). simpl. lia.
Qed.

(** A string made of white space only is trimmed to the empty string. *)
Lemma TrimSpace_spaces (ws : list string) :
  Forall (fun w => In w strings.spaces) ws ->
  strings.TrimSpace (fold_right String.append EmptyString ws) = EmptyString.
Proof.
  intros H. unfold strings.TrimSpace.
  rewrite (trimLeft_spaces ws H _ (spaces_length ws H)). reflexivity.
Qed.

Lemma parseLoop_error (coinStrs : list string) (tok : string) :
  In tok coinStrs -> snd (ParseDecCoin tok) <> None ->
  forall coins, exists err, parseLoop coinStrs coins = ([], Some err).
Proof.
  induction coinStrs as [|t rest IH]; intros Hin Hbad coins; [destruct Hin|].
  cbn [parseLoop]. destruct (ParseDecCoin t) as [coin [err|]] eqn:E.
  - eexists. reflexivity.
  - destruct Hin as [->|Hin]; [rewrite E in Hbad; simpl in Hbad; congruence|].
    apply IH; assumption.
Qed.

Lemma ParseDecCoins_empty (coinsStr : string) :
  strings.TrimSpace coinsStr = EmptyString -> ParseDecCoins coinsStr = ([], None).
Proof. intros H. unfold ParseDecCoins. rewrite H. reflexivity. Qed.

(** C7: [ParseDecCoins] of a string that is empty or white space only
    returns the empty set and no error; when a piece between the
    separators fails in [ParseDecCoin] the call returns an error; with an
    error no coins are returned; and the coins returned without an error
    are sorted by denomination and pass [IsValid]. *)
Theorem ParseDecCoins_all_or_nothing (coinsStr : string) :
  (strings.TrimSpace coinsStr = EmptyString -> ParseDecCoins coinsStr = ([], None)) /\
  ParseDecCoins EmptyString = ([], None) /\
  (forall ws, Forall (fun w => In w strings.spaces) ws ->
              ParseDecCoins (fold_right String.append EmptyString ws) = ([], None)) /\
  (forall tok,
      strings.TrimSpace coinsStr <> EmptyString ->
      In tok (splitRe_Split (strings.TrimSpace coinsStr)) ->
      snd (ParseDecCoin tok) <> None ->
      exists err, ParseDecCoins coinsStr = ([], Some err)) /\
  (forall coins err, ParseDecCoins coinsStr = (coins, Some err) -> coins = []) /\
  (forall coins,
      ParseDecCoins coinsStr = (coins, None) ->
      sorted coins = true /\ increasing coins = true /\
      DecCoins_IsValid coins = true).
Proof.
  split; [apply ParseDecCoins_empty|].
  split; [reflexivity|].
  split; [intros ws H; apply ParseDecCoins_empty, TrimSpace_spaces; exact H|].
  split; [|split].
  - intros tok Hne Hin Hbad. unfold ParseDecCoins.
    destruct (String.length (strings.TrimSpace coinsStr)) eqn:L.
    + destruct (strings.TrimSpace coinsStr); [congruence|discriminate].
    + cbn [Nat.eqb].
      destruct (parseLoop_error _ tok Hin Hbad []) as [err ->].
      eexists. reflexivity.
  - unfold ParseDecCoins. intros coins err.
    destruct (Nat.eqb (String.length (strings.TrimSpace coinsStr)) 0);
      [congruence|].
    destruct (parseLoop _ []) as [cs [e|]]; [congruence|].
    destruct (DecCoins_IsValid (DecCoins_Sort cs)); simpl; congruence.
  - unfold ParseDecCoins. intros coins.
    assert (Hnil : sorted [] = true /\ increasing [] = true /\
                   DecCoins_IsValid [] = true) by (repeat split).
    destruct (Nat.eqb (String.length (strings.TrimSpace coinsStr)) 0);
      [intros [= <-]; exact Hnil|].
    destruct (parseLoop _ []) as [cs [e|]]; [discriminate|].
    destruct (DecCoins_IsValid (DecCoins_Sort cs)) eqn:V; simpl; [|discriminate].
    intros [= <-]. pose proof V as V'.
    apply DecCoins_IsValid_iff in V'. destruct V' as [_ V'].
    split; [apply sorted_nondecreasing, ascending_nondecreasing; exact V'|].
    split; [apply increasing_ascending; exact V' | exact V].
Qed.

(** ** Sorting *)

Lemma sortInsert_perm (c : DecCoin) (coins : DecCoins) :
  Permutation (sortInsert c coins) (c :: coins).
Proof.
  induction coins as [|x coins IH]; simpl; [reflexivity|].
  destruct (Less c x); [reflexivity|].
  rewrite IH. apply perm_swap.
Qed.

Lemma sortInsert_sorted (c : DecCoin) (coins : DecCoins) :
  nondecreasing coins -> nondecreasing (sortInsert c coins).
Proof.
  unfold nondecreasing.
  induction 1 as [|x coins Hs IH Hx]; simpl; [repeat constructor|].
  unfold Less. destruct (String.ltb (Denom c) (Denom x)) eqn:L.
  - apply ltb_slt in L.
    assert (Hcx : leDenom c x) by (apply leb_cases; left; exact L).
    constructor; [constructor; assumption|].
    constructor; [exact Hcx|].
    revert Hx. apply Forall_impl. intros y. apply leDenom_trans. exact Hcx.
  - constructor; [exact IH|].
    assert (Hxc : leDenom x c).
    { apply leb_not_slt. intros Hlt. apply ltb_slt in Hlt. congruence. }
    apply (Permutation_Forall (Permutation_sym (sortInsert_perm c coins))).
    constructor; assumption.
Qed.

Lemma DecCoins_Sort_spec (coins : DecCoins) :
  Permutation (DecCoins_Sort coins) coins /\ sorted (DecCoins_Sort coins) = true.
Proof.
  unfold DecCoins_Sort. rewrite sorted_nondecreasing.
  assert (H : forall acc,
             nondecreasing acc ->
             Permutation (fold_left (fun sorted c => sortInsert c sorted) coins acc)
                         (coins ++ acc) /\
             nondecreasing (fold_left (fun sorted c => sortInsert c sorted) coins acc)).
  { induction coins as [|c coins IH]; intros acc Hacc; [split; [reflexivity|exact Hacc]|].
    simpl. destruct (IH (sortInsert c acc) (sortInsert_sorted c acc Hacc)) as [P S].
    split; [|exact S]. rewrite P, sortInsert_perm.
    symmetry. apply Permutation_middle. }
  destruct (H [] ltac:(constructor)) as [P S].
  rewrite app_nil_r in P. split; assumption.
Qed.

End Properties.

(** * Further properties *)

Section MoreProperties.

Context {pkg : Package}.

Ltac dec_unfold :=
  unfold Dec_IsZero, Dec_Add, Dec_Sub, Dec_Neg, Dec_LT, Dec_LTE, Dec_IsPositive,
    Dec_IsNegative, ZeroDec in *.

(** ** The merge on arbitrary slices *)

Lemma zeroFree_Forall (coins : DecCoins) :
  zeroFree coins = true <-> Forall (fun c => Amount c <> ZeroDec) coins.
Proof.
  unfold zeroFree. rewrite forallb_forall, Forall_forall.
  split; intros H c Hc; specialize (H c Hc); dec_unfold.
  - apply negb_true_iff, Z.eqb_neq in H. exact H.
  - apply negb_true_iff, Z.eqb_neq. exact H.
Qed.

Lemma merge_zeroFree (A B : DecCoins) :
  Forall (fun c => Amount c <> ZeroDec) A ->
  Forall (fun c => Amount c <> ZeroDec) B ->
  Forall (fun c => Amount c <> ZeroDec) (merge A B).
Proof.
  rewrite !Forall_forall. intros HA HB c Hc.
  destruct (merge_In c A B Hc) as [H|[H|(a & b & _ & _ & _ & -> & Z)]]; auto.
  simpl. dec_unfold. apply Z.eqb_neq. exact Z.
Qed.

Lemma Negative_zeroFree (A : DecCoins) :
  Forall (fun c => Amount c <> ZeroDec) A ->
  Forall (fun c => Amount c <> ZeroDec) (DecCoins_Negative A).
Proof.
  intros H. unfold DecCoins_Negative. apply Forall_forall. intros c Hc.
  apply in_map_iff in Hc. destruct Hc as (a & <- & Ha).
  rewrite Forall_forall in H. specialize (H a Ha). simpl. dec_unfold. lia.
Qed.

Lemma Negative_ascending (A : DecCoins) :
  ascending A -> ascending (DecCoins_Negative A).
Proof. apply ascending_map. reflexivity. Qed.

(** X1: [DecCoins.Plus] returns for every pair of slices, sorted or not:
    the panic of [DecCoin.Plus] is never reached.  The order of the
    operands does not matter, and the empty slice is neutral. *)
Theorem Plus_total_commutative (A B : DecCoins) :
  (exists S, DecCoins_Plus A B = Return S) /\
  DecCoins_Plus A B = DecCoins_Plus B A /\
  DecCoins_Plus A [] = Return A /\
  DecCoins_Plus [] B = Return B.
Proof.
  rewrite !DecCoins_Plus_merge, merge_nil_l, merge_nil_r, (merge_comm A B).
  repeat split. eexists. reflexivity.
Qed.

(** X2: for every pair of slices, sorted or not, the amounts of a
    denomination in [Plus(A, B)] add up to what they add up to in [A]
    plus what they add up to in [B]. *)
Theorem Plus_conserves_totals (A B : DecCoins) (d : string) :
  exists S, DecCoins_Plus A B = Return S /\
            sumOf d S = Dec_Add (sumOf d A) (sumOf d B).
Proof.
  exists (merge A B). split; [apply DecCoins_Plus_merge | apply merge_sumOf].
Qed.

(** X3: the contract of [Plus] ("will never return Coins where one Coin
    has a 0 amount") holds when no operand has a zero entry, and every
    denomination of the result is a denomination of an operand. *)
Theorem Plus_contract (A B : DecCoins) :
  zeroFree A = true -> zeroFree B = true ->
  exists S, DecCoins_Plus A B = Return S /\
            zeroFree S = true /\
            (forall d, hasDenom d S = true -> hasDenom d A = true \/ hasDenom d B = true).
Proof.
  intros HA HB. exists (merge A B). split; [apply DecCoins_Plus_merge|]. split.
  - apply zeroFree_Forall, merge_zeroFree; apply zeroFree_Forall; assumption.
  - intros d Hd. unfold hasDenom in *. rewrite !existsb_exists in *.
    destruct Hd as (c & Hc & E).
    destruct (merge_In c A B Hc) as [H|[H|(a & b & Ha & Hb & _ & -> & _)]].
    + left. exists c. auto.
    + right. exists c. auto.
    + left. exists a. auto.
Qed.

Lemma merge_assoc (A B C : DecCoins) :
  ascending A -> ascending B -> ascending C ->
  Forall (fun c => Amount c <> ZeroDec) A ->
  Forall (fun c => Amount c <> ZeroDec) B ->
  Forall (fun c => Amount c <> ZeroDec) C ->
  merge (merge A B) C = merge A (merge B C).
Proof.
  intros SA SB SC ZA ZB ZC. apply ascending_ext.
  - auto using merge_ascending.
  - auto using merge_ascending.
  - auto using merge_zeroFree.
  - auto using merge_zeroFree.
  - intros d. rewrite !merge_sumOf. dec_unfold. lia.
Qed.

(** X4: [Plus] is associative on slices with strictly increasing
    denominations and no zero entry, whatever the signs of the amounts. *)
Theorem Plus_associative_signed (A B C : DecCoins) :
  increasing A = true -> increasing B = true -> increasing C = true ->
  zeroFree A = true -> zeroFree B = true -> zeroFree C = true ->
  (ab <- DecCoins_Plus A B ;; DecCoins_Plus ab C)
  = (bc <- DecCoins_Plus B C ;; DecCoins_Plus A bc).
Proof.
  rewrite !increasing_ascending, !zeroFree_Forall. intros.
  rewrite !DecCoins_Plus_merge. simpl. rewrite !DecCoins_Plus_merge.
  f_equal. apply merge_assoc; assumption.
Qed.

(** X5: subtracting [B] from [Plus(A, B)] gives [A] back, for slices
    with strictly increasing denominations and no zero entry. *)
Theorem Minus_Plus_cancel (A B : DecCoins) :
  increasing A = true -> increasing B = true ->
  zeroFree A = true -> zeroFree B = true ->
  (ab <- DecCoins_Plus A B ;; DecCoins_Minus ab B) = Return A.
Proof.
  rewrite !increasing_ascending, !zeroFree_Forall. intros SA SB ZA ZB.
  unfold DecCoins_Minus. rewrite !DecCoins_Plus_merge. simpl.
  rewrite DecCoins_Plus_merge. f_equal. apply ascending_ext.
  - auto using merge_ascending, Negative_ascending.
  - exact SA.
  - auto using merge_zeroFree, Negative_zeroFree.
  - exact ZA.
  - intros d. rewrite !merge_sumOf, sumOf_Negative. dec_unfold. lia.
Qed.

(** ** Subtraction and negation *)

Lemma increasing_Minus_ascending (A B : DecCoins) :
  ascending A -> ascending B -> ascending (merge A (DecCoins_Negative B)).
Proof. auto using merge_ascending, Negative_ascending. Qed.

(** X6: for slices with strictly increasing denominations, [Minus(A, B)]
    has strictly increasing denominations too and [AmountOf] finds in it,
    for every denomination, the amount in [A] minus the amount in [B]. *)
Theorem Minus_AmountOf (A B : DecCoins) :
  increasing A = true -> increasing B = true ->
  exists R, DecCoins_Minus A B = Return R /\
            increasing R = true /\
            (forall d, DecCoins_AmountOf R d
                       = Dec_Sub (DecCoins_AmountOf A d) (DecCoins_AmountOf B d)).
Proof.
  rewrite !increasing_ascending. intros SA SB.
  exists (merge A (DecCoins_Negative B)).
  split; [unfold DecCoins_Minus; apply DecCoins_Plus_merge|].
  split; [apply increasing_ascending, increasing_Minus_ascending; assumption|].
  intros d. rewrite !AmountOf_sumOf by auto using increasing_Minus_ascending.
  rewrite merge_sumOf, sumOf_Negative. dec_unfold. lia.
Qed.

Lemma sumOf_cases (coins : DecCoins) (d : string) :
  ascending coins ->
  (exists c, In c coins /\ Denom c = d /\ sumOf d coins = Amount c) \/
  ((forall c, In c coins -> Denom c <> d) /\ sumOf d coins = ZeroDec).
Proof.
  intros H. rewrite <- (AmountOf_sumOf coins d H).
  apply AmountOf_search, ascending_nondecreasing, H.
Qed.

Lemma HasNegative_false (coins : DecCoins) :
  DecCoins_HasNegative coins = false <->
  Forall (fun c => ZeroDec <= Amount c) coins.
Proof.
  unfold DecCoins_HasNegative. rewrite Forall_forall. split.
  - intros H c Hc. destruct (Z.lt_ge_cases (Amount c) ZeroDec) as [L|G]; [|exact G].
    assert (existsb (fun coin => Dec_IsNegative (Amount coin)) coins = true).
    { apply existsb_exists. exists c. split; [exact Hc|].
      dec_unfold. apply Z.ltb_lt. exact L. }
    congruence.
  - intros H. destruct (existsb _ coins) eqn:E; [|reflexivity].
    apply existsb_exists in E. destruct E as (c & Hc & N).
    specialize (H c Hc). dec_unfold. apply Z.ltb_lt in N. lia.
Qed.

Lemma hasDenom_true (d : string) (coins : DecCoins) :
  hasDenom d coins = true <-> exists c, In c coins /\ Denom c = d.
Proof.
  unfold hasDenom. rewrite existsb_exists.
  split; intros (c & Hc & E); exists c; (split; [exact Hc|]);
    apply String.eqb_eq; exact E.
Qed.

Lemma hasDenom_false (d : string) (coins : DecCoins) :
  hasDenom d coins = false <-> forall c, In c coins -> Denom c <> d.
Proof.
  split.
  - intros H c Hc E. assert (hasDenom d coins = true)
      by (apply hasDenom_true; exists c; auto). congruence.
  - intros H. destruct (hasDenom d coins) eqn:E; [|reflexivity].
    apply hasDenom_true in E. destruct E as (c & Hc & E). destruct (H c Hc E).
Qed.

Lemma valid_denoms_merge (A B : DecCoins) :
  Forall (fun c => Validate c true = None) A ->
  Forall (fun c => Validate c true = None) B ->
  forall c, In c (merge A (DecCoins_Negative B)) ->
            validateCoinDenomContainsSpace (Denom c) = None /\
            validateCoinDenomCase (Denom c) = None.
Proof.
  rewrite !Forall_forall. intros HA HB c Hc.
  assert (HN : forall b, In b (DecCoins_Negative B) ->
                         exists b', In b' B /\ Denom b' = Denom b).
  { intros b Hb. apply in_map_iff in Hb. destruct Hb as (b' & <- & Hb').
    exists b'. auto. }
  destruct (merge_In c _ _ Hc) as [H|[H|(a & b & Ha & _ & _ & -> & _)]].
  - specialize (HA c H). apply Validate_None in HA. tauto.
  - destruct (HN c H) as (b' & Hb' & <-).
    specialize (HB b' Hb'). apply Validate_None in HB. tauto.
  - specialize (HA a Ha). apply Validate_None in HA. simpl. tauto.
Qed.

(** X7: for canonical [A] and [B], [Minus(A, B)] is canonical exactly when
    it has no negative entry, and that is exactly when [B] has, of every
    denomination, at most the amount [A] has. *)
Theorem Minus_valid_iff (A B : DecCoins) :
  DecCoins_IsValid A = true -> DecCoins_IsValid B = true ->
  exists R, DecCoins_Minus A B = Return R /\
            (DecCoins_IsValid R = true <-> DecCoins_HasNegative R = false) /\
            (DecCoins_HasNegative R = false <->
             forall d, DecCoins_AmountOf B d <= DecCoins_AmountOf A d).
Proof.
  intros HA HB. apply DecCoins_IsValid_iff in HA, HB.
  destruct HA as [VA SA]. destruct HB as [VB SB].
  set (R := merge A (DecCoins_Negative B)).
  assert (SR : ascending R) by (apply increasing_Minus_ascending; assumption).
  assert (ZR : Forall (fun c => Amount c <> ZeroDec) R)
    by (apply merge_zeroFree; [|apply Negative_zeroFree]; apply valid_nonzero; assumption).
  assert (ER : forall d, sumOf d R = sumOf d A - sumOf d B).
  { intros d. unfold R. rewrite merge_sumOf, sumOf_Negative. dec_unfold. lia. }
  exists R. split; [unfold DecCoins_Minus; apply DecCoins_Plus_merge|]. split.
  - rewrite HasNegative_false, DecCoins_IsValid_iff. split.
    + intros [V _]. revert V. apply Forall_impl. intros c V.
      apply Validate_strict_positive in V. lia.
    + intros N. split; [|exact SR]. apply Forall_forall. intros c Hc.
      rewrite Forall_forall in N, ZR. specialize (N c Hc). specialize (ZR c Hc).
      apply Validate_None. rewrite validateDecCoinAmount_strict.
      split; [lia|]. exact (valid_denoms_merge A B VA VB c Hc).
  - rewrite HasNegative_false. split.
    + intros N d. rewrite !AmountOf_sumOf by assumption.
      specialize (ER d).
      destruct (sumOf_cases R d SR) as [(c & Hc & _ & E)|[_ E]].
      * rewrite Forall_forall in N. specialize (N c Hc).
        unfold ZeroDec in *. lia.
      * unfold ZeroDec in *. lia.
    + intros H. apply Forall_forall. intros c Hc.
      rewrite <- (sumOf_entry c R SR Hc), ER.
      specialize (H (Denom c)). rewrite !AmountOf_sumOf in H by assumption.
      unfold ZeroDec. lia.
Qed.

(** X8: [Negative] undoes itself, and the negative of a non-empty
    canonical set has a negative entry and is not canonical. *)
Theorem Negative_involutive (A : DecCoins) :
  DecCoins_Negative (DecCoins_Negative A) = A /\
  (DecCoins_IsValid A = true -> A <> [] ->
   DecCoins_HasNegative (DecCoins_Negative A) = true /\
   DecCoins_IsValid (DecCoins_Negative A) = false).
Proof.
  split.
  - unfold DecCoins_Negative. rewrite map_map. rewrite <- (map_id A) at 2.
    apply map_ext. intros [d a]. simpl. unfold Dec_Neg. f_equal. lia.
  - intros V Hne. destruct A as [|c A]; [congruence|].
    apply DecCoins_IsValid_iff in V. destruct V as [V _].
    inversion V as [|? ? Vc _]; subst. apply Validate_strict_positive in Vc.
    split.
    + simpl. dec_unfold. replace (- Amount c <? 0) with true; [reflexivity|].
      symmetry. apply Z.ltb_lt. lia.
    + destruct (DecCoins_IsValid (DecCoins_Negative (c :: A))) eqn:E; [|reflexivity].
      apply DecCoins_IsValid_iff in E. destruct E as [E _].
      inversion E as [|? ? Ec _]; subst. apply Validate_strict_positive in Ec.
      simpl in Ec. dec_unfold. lia.
Qed.

(** X9: a canonical set has no negative entry, is all zero only when it
    is empty, and [AmountOf] is strictly positive exactly for the
    denominations it has and zero for all others. *)
Theorem IsValid_amounts (A : DecCoins) :
  DecCoins_IsValid A = true ->
  DecCoins_HasNegative A = false /\
  (DecCoins_IsZero A = true <-> A = []) /\
  (forall d, (ZeroDec < DecCoins_AmountOf A d <-> hasDenom d A = true) /\
             (DecCoins_AmountOf A d = ZeroDec <-> hasDenom d A = false)).
Proof.
  intros V. apply DecCoins_IsValid_iff in V. destruct V as [V S].
  assert (P : forall c, In c A -> ZeroDec < Amount c).
  { intros c Hc. rewrite Forall_forall in V.
    exact (Validate_strict_positive c (V c Hc)). }
  split; [|split].
  - apply HasNegative_false, Forall_forall. intros c Hc. specialize (P c Hc). lia.
  - split; [|intros ->; reflexivity].
    destruct A as [|c A]; [reflexivity|]. intros Z. exfalso.
    specialize (P c (or_introl eq_refl)). simpl in Z.
    apply andb_true_iff in Z. destruct Z as [Z _]. dec_unfold.
    apply Z.eqb_eq in Z. lia.
  - intros d. rewrite (AmountOf_sumOf A d S), hasDenom_true, hasDenom_false.
    destruct (sumOf_cases A d S) as [(c & Hc & E & ->)|[N ->]].
    + specialize (P c Hc). split; split; intros H.
      * exists c. auto.
      * exact P.
      * lia.
      * destruct (H c Hc E).
    + split; split; intros H.
      * unfold ZeroDec in H. lia.
      * destruct H as (c & Hc & E). destruct (N c Hc E).
      * exact N.
      * reflexivity.
Qed.

(** ** Lookup *)

Lemma In_firstn {A : Type} (n : nat) (l : list A) (x : A) :
  In x (firstn n l) -> In x l.
Proof.
  intros H. rewrite <- (firstn_skipn n l). apply in_or_app. now left.
Qed.

Lemma In_skipn {A : Type} (n : nat) (l : list A) (x : A) :
  In x (skipn n l) -> In x l.
Proof.
  intros H. rewrite <- (firstn_skipn n l). apply in_or_app. now right.
Qed.

(** X10: on every slice, sorted or not, [AmountOf(d)] is zero or the
    amount of an entry whose denomination is [d]: it never returns the
    amount of another denomination. *)
Theorem AmountOf_own_denom (coins : DecCoins) (d : string) :
  DecCoins_AmountOf coins d = ZeroDec \/
  exists c, In c coins /\ Denom c = d /\ DecCoins_AmountOf coins d = Amount c.
Proof.
  funelim (DecCoins_AmountOf coins d).
  - left. reflexivity.
  - simp DecCoins_AmountOf. destruct (String.eqb_spec (Denom coin) denom) as [E|N].
    + right. exists coin. split; [now left|]. split; [exact E|reflexivity].
    + left. reflexivity.
  - clear Heqcall.
    set (coins := c0 :: c1 :: rest) in *.
    destruct (String.ltb denom (Denom (nth (midIdx coins) coins c0))).
    + destruct H as [H|(c & Hc & E & H)]; [now left|].
      right. exists c. split; [exact (In_firstn _ _ _ Hc)|]. split; assumption.
    + destruct (String.eqb_spec denom (Denom (nth (midIdx coins) coins c0))) as [E|N].
      * right. exists (nth (midIdx coins) coins c0).
        split; [|split; [symmetry; exact E | reflexivity]].
        apply nth_In. apply Nat.div_lt; simpl; lia.
      * destruct H0 as [H0|(c & Hc & E & H0)]; [now left|].
        right. exists c. split; [exact (In_skipn _ _ _ Hc)|]. split; assumption.
Qed.

Lemma AmountOf_map (f : DecCoin -> DecCoin) (A : DecCoins) :
  (forall c, Denom (f c) = Denom c) ->
  ascending A ->
  (forall c, In c A -> DecCoins_AmountOf (map f A) (Denom c) = Amount (f c)) /\
  (forall d, hasDenom d A = false -> DecCoins_AmountOf (map f A) d = ZeroDec).
Proof.
  intros Hf SA. pose proof (ascending_map f A Hf SA) as SM. split.
  - intros c Hc. rewrite (AmountOf_sumOf _ _ SM), <- (Hf c).
    apply sumOf_entry; [exact SM | apply in_map; exact Hc].
  - intros d Hd. rewrite (AmountOf_sumOf _ _ SM). apply sumOf_absent.
    intros x Hx. apply in_map_iff in Hx. destruct Hx as (c & <- & Hc).
    rewrite Hf. rewrite hasDenom_false in Hd. exact (Hd c Hc).
Qed.

Lemma increasing_map (f : DecCoin -> DecCoin) (A : DecCoins) :
  (forall c, Denom (f c) = Denom c) ->
  increasing (map f A) = increasing A.
Proof.
  intros Hf. induction A as [|c A IH]; [reflexivity|].
  destruct A as [|n A]; [reflexivity|].
  change (map f (c :: n :: A)) with (f c :: f n :: map f A).
  cbn [increasing]. cbn [increasing map] in IH. rewrite IH, !Hf. reflexivity.
Qed.

Lemma map_lookupCommutes (op : Dec -> Dec -> Dec) :
  lookupCommutes op
    (fun coins d => map (fun c => mkDecCoin (Denom c) (op (Amount c) d)) coins).
Proof.
  intros A x. split; [apply increasing_map; reflexivity|].
  intros HA. apply increasing_ascending in HA.
  apply (AmountOf_map (fun c => mkDecCoin (Denom c) (op (Amount c) x)) A);
    [reflexivity | exact HA].
Qed.

(** X11: [MulDec], [MulDecTruncate], [QuoDec] and [QuoDecTruncate] keep
    the order of the denominations, and on a set with strictly increasing
    denominations [AmountOf] finds in the result, for a denomination of
    the set, the scalar operation applied to the entry's amount, and zero
    for every other denomination. *)
Theorem scalar_operations_lookup :
  lookupCommutes Dec_Mul DecCoins_MulDec /\
  lookupCommutes Dec_MulTruncate DecCoins_MulDecTruncate /\
  lookupCommutes Dec_Quo DecCoins_QuoDec /\
  lookupCommutes Dec_QuoTruncate DecCoins_QuoDecTruncate.
Proof.
  split; [|split; [|split]]; apply map_lookupCommutes.
Qed.

Lemma StronglySorted_app {A : Type} (R : A -> A -> Prop) (l1 l2 : list A) :
  StronglySorted R (l1 ++ l2) <->
  StronglySorted R l1 /\ StronglySorted R l2 /\
  (forall x y, In x l1 -> In y l2 -> R x y).
Proof.
  induction l1 as [|a l1 IH]; simpl.
  - split; [intros H; repeat split; [constructor | exact H | intros x y []]|tauto].
  - split.
    + intros H. inversion H as [|? ? Hs Hf]; subst.
      apply IH in Hs. destruct Hs as (H1 & H2 & H3).
      rewrite Forall_app in Hf. destruct Hf as [Hf1 Hf2].
      repeat split; [constructor; assumption | exact H2 |].
      intros x y [<-|Hx] Hy; [|auto].
      rewrite Forall_forall in Hf2. auto.
    + intros (H1 & H2 & H3). inversion H1 as [|? ? Hs Hf]; subst.
      constructor.
      * apply IH. repeat split; auto.
      * apply Forall_app. split; [exact Hf|].
        apply Forall_forall. intros y Hy. apply H3; [now left | exact Hy].
Qed.

(** X12: a concatenation is canonical exactly when both parts are and
    every denomination of the first part is below every denomination of
    the second: every contiguous part of a canonical set is canonical. *)
Theorem IsValid_app (A B : DecCoins) :
  DecCoins_IsValid (A ++ B) = true <->
  DecCoins_IsValid A = true /\ DecCoins_IsValid B = true /\
  (forall a b, In a A -> In b B -> slt (Denom a) (Denom b)).
Proof.
  rewrite !DecCoins_IsValid_iff, Forall_app. unfold ascending.
  rewrite StronglySorted_app. unfold ltDenom. tauto.
Qed.

(** ** Truncation of one coin and of ordered sets *)

(** X13: for a coin that passes [Validate(false)], [TruncateDecimal]
    returns an integer coin and a decimal coin of the same denomination;
    the integer amount is not negative, the remainder lies in [0, 1), they
    add up to the amount, and so the integer amount is the largest
    integer not above the amount. *)
Theorem DecCoin_TruncateDecimal_exact (coin : DecCoin) :
  Validate coin false = None ->
  exists (i : Coin) (r : DecCoin),
    DecCoin_TruncateDecimal coin = Return (i, r) /\
    Coin_Denom i = Denom coin /\ Denom r = Denom coin /\
    Dec_Add (NewDecFromInt (Coin_Amount i)) (Amount r) = Amount coin /\
    0 <= Coin_Amount i /\
    ZeroDec <= Amount r < OneDec /\
    NewDecFromInt (Coin_Amount i) <= Amount coin < NewDecFromInt (Coin_Amount i + 1).
Proof.
  intros V. exists (truncatedCoin coin), (changeCoin coin).
  split; [apply DecCoin_TruncateDecimal_valid; exact V|].
  apply Validate_None in V. destruct V as [V _].
  apply validateDecCoinAmount_lax in V.
  destruct (change_bounds _ V) as [Ht Hc].
  unfold truncatedCoin, changeCoin. cbn [Coin_Denom Coin_Amount Denom Amount].
  repeat split; try tauto.
  - dec_unfold. lia.
  - revert Hc. unfold NewDecFromInt, OneDec. dec_unfold. lia.
  - revert Hc. unfold NewDecFromInt, OneDec. dec_unfold. lia.
Qed.

Lemma TruncateInt_NewDecFromInt (n : Int) : Dec_TruncateInt (NewDecFromInt n) = n.
Proof.
  unfold Dec_TruncateInt, NewDecFromInt. apply Z.quot_mul.
  pose proof precisionReuse_pos. lia.
Qed.

Lemma decOfCoin_valid (coin : Coin) :
  0 <= Coin_Amount coin ->
  validateCoinDenomContainsSpace (Coin_Denom coin) = None ->
  validateCoinDenomCase (Coin_Denom coin) = None ->
  Validate (decOfCoin coin) false = None.
Proof.
  intros Ha Hs Hc. apply Validate_None. rewrite validateDecCoinAmount_lax.
  unfold decOfCoin. cbn [Denom Amount]. repeat split; try assumption.
  unfold NewDecFromInt, ZeroDec. pose proof precisionReuse_pos. nia.
Qed.

Lemma truncatedCoin_decOfCoin (coin : Coin) : truncatedCoin (decOfCoin coin) = coin.
Proof.
  unfold truncatedCoin, decOfCoin. cbn [Denom Amount].
  rewrite TruncateInt_NewDecFromInt. destruct coin; reflexivity.
Qed.

Lemma changeCoin_decOfCoin (coin : Coin) :
  changeCoin (decOfCoin coin) = mkDecCoin (Coin_Denom coin) ZeroDec.
Proof.
  unfold changeCoin, decOfCoin. cbn [Denom Amount].
  rewrite TruncateInt_NewDecFromInt. f_equal. dec_unfold. lia.
Qed.

(** X14: an integer coin with a non-negative amount and an admissible
    denomination survives the way to a decimal coin and back:
    [NewDecCoinFromCoin] returns, and [TruncateDecimal] of its result
    returns the coin itself and a remainder of zero. *)
Theorem Coin_round_trip (coin : Coin) :
  0 <= Coin_Amount coin ->
  validateCoinDenomContainsSpace (Coin_Denom coin) = None ->
  validateCoinDenomCase (Coin_Denom coin) = None ->
  exists dc,
    NewDecCoinFromCoin coin = Return dc /\
    DecCoin_TruncateDecimal dc = Return (coin, mkDecCoin (Coin_Denom coin) ZeroDec).
Proof.
  intros Ha Hs Hc. pose proof (decOfCoin_valid coin Ha Hs Hc) as V.
  exists (decOfCoin coin). split.
  - unfold NewDecCoinFromCoin, validated. fold (decOfCoin coin). rewrite V. reflexivity.
  - rewrite (DecCoin_TruncateDecimal_valid _ V).
    rewrite truncatedCoin_decOfCoin, changeCoin_decOfCoin. reflexivity.
Qed.

Lemma merge_snoc (acc : DecCoins) (c : DecCoin) :
  Forall (fun a => slt (Denom a) (Denom c)) acc -> merge acc [c] = acc ++ [c].
Proof.
  induction 1 as [|a acc Ha _ IH]; [reflexivity|].
  rewrite merge_cons. unfold slt in Ha. rewrite Ha, IH. reflexivity.
Qed.

Lemma changes_ordered (D : DecCoins) :
  forall acc,
    ascending D ->
    Forall (fun a => above (Denom a) D) acc ->
    changes D acc = acc ++ map changeCoin D.
Proof.
  induction D as [|c D IH]; intros acc SD Hacc.
  - simpl. rewrite app_nil_r. reflexivity.
  - apply ascending_cons in SD. destruct SD as [SD Hab].
    cbn [changes fold_left map]. fold (changes D (merge acc [changeCoin c])).
    rewrite merge_snoc.
    + rewrite IH; [rewrite <- app_assoc; reflexivity | exact SD |].
      apply Forall_app. split.
      * revert Hacc. apply Forall_impl. intros a Ha. inversion Ha; subst. assumption.
      * constructor; [exact Hab | constructor].
    + revert Hacc. apply Forall_impl. intros a Ha. inversion Ha; subst. assumption.
Qed.

(** X15: on a set with strictly increasing denominations whose entries
    pass [Validate(false)], [TruncateDecimal] returns, position by
    position, the integer parts and the remainders of the entries:
    a remainder of zero is kept as an entry. *)
Theorem TruncateDecimal_ordered (D : DecCoins) :
  forallb (fun c => passes (Validate c false)) D = true ->
  increasing D = true ->
  DecCoins_TruncateDecimal D = Return (map truncatedCoin D, map changeCoin D).
Proof.
  intros V S. apply forallb_passes in V. apply increasing_ascending in S.
  unfold DecCoins_TruncateDecimal. rewrite (truncateLoop_valid D V).
  rewrite (changes_ordered D [] S); [reflexivity | constructor].
Qed.

(** ** Truncating twice, and sets of integer coins *)

Lemma merge_Forall (P : DecCoin -> Prop) (A B : DecCoins) :
  (forall a b, P a -> P b -> Denom a = Denom b ->
               P (mkDecCoin (Denom a) (Dec_Add (Amount a) (Amount b)))) ->
  Forall P A -> Forall P B -> Forall P (merge A B).
Proof.
  intros Hsum. rewrite !Forall_forall. intros HA HB c Hc.
  destruct (merge_In c A B Hc) as [H|[H|(a & b & Ha & Hb & E & -> & _)]]; auto.
Qed.

Lemma changes_Forall (P : DecCoin -> Prop) (D : DecCoins) :
  (forall a b, P a -> P b -> Denom a = Denom b ->
               P (mkDecCoin (Denom a) (Dec_Add (Amount a) (Amount b)))) ->
  Forall P (map changeCoin D) ->
  forall acc, Forall P acc -> Forall P (changes D acc).
Proof.
  intros Hsum. induction D as [|c D IH]; intros HD acc Hacc; [exact Hacc|].
  cbn [map] in HD. inversion HD as [|? ? Hc HD']; subst.
  cbn [changes fold_left]. apply (IH HD').
  apply merge_Forall; [exact Hsum | exact Hacc | repeat constructor; exact Hc].
Qed.

Lemma changes_bounds (D : DecCoins) :
  Forall (fun c => Validate c false = None) D ->
  distinct D = true ->
  Forall (fun r => ZeroDec <= Amount r < OneDec) (changes D []).
Proof.
  intros HV HD.
  assert (HR : ascending (changes D [])) by (apply changes_ascending; constructor).
  apply Forall_forall. intros r Hr.
  rewrite <- (sumOf_entry r _ HR Hr), changes_sumOf.
  cbn [sumOf]. unfold Dec_Add, ZeroDec, OneDec. rewrite Z.add_0_l.
  apply sumOf_distinct_bounds.
  - exact precisionReuse_pos.
  - rewrite distinct_map_changeCoin. exact HD.
  - apply Forall_forall. intros x Hx. apply in_map_iff in Hx.
    destruct Hx as (c & <- & Hc). rewrite Forall_forall in HV.
    specialize (HV c Hc). apply Validate_None in HV.
    destruct HV as [HV _]. apply validateDecCoinAmount_lax in HV.
    exact (proj2 (change_bounds _ HV)).
Qed.

Lemma changes_denoms (D : DecCoins) :
  Forall (fun c => Validate c false = None) D ->
  Forall (fun r => validateCoinDenomContainsSpace (Denom r) = None /\
                   validateCoinDenomCase (Denom r) = None) (changes D []).
Proof.
  intros HV. apply changes_Forall.
  - intros a b Ha _ _. exact Ha.
  - apply Forall_forall. intros x Hx. apply in_map_iff in Hx.
    destruct Hx as (c & <- & Hc). rewrite Forall_forall in HV.
    specialize (HV c Hc). apply Validate_None in HV. simpl. tauto.
  - constructor.
Qed.

Lemma small_truncates_to_zero (r : DecCoin) :
  ZeroDec <= Amount r < OneDec ->
  truncatedCoin r = zeroCoin r /\ changeCoin r = r.
Proof.
  unfold ZeroDec, OneDec. intros H.
  assert (Hq : Dec_TruncateInt (Amount r) = 0)
    by (apply Z.quot_small; exact H).
  unfold truncatedCoin, changeCoin, zeroCoin. rewrite Hq. split; [reflexivity|].
  destruct r as [d a]. cbn [Denom Amount].
  unfold NewDecFromInt, Dec_Sub. f_equal. lia.
Qed.

(** X16: the remainder of a truncation is left as it is by a second
    truncation: for a set whose entries pass [Validate(false)] and have
    pairwise distinct denominations, [TruncateDecimal] of the remainder
    set returns integer amounts that are all zero and the remainder set
    itself. *)
Theorem TruncateDecimal_twice (D : DecCoins) :
  forallb (fun c => passes (Validate c false)) D = true ->
  distinct D = true ->
  exists (I : Coins) (R : DecCoins),
    DecCoins_TruncateDecimal D = Return (I, R) /\
    DecCoins_TruncateDecimal R = Return (map zeroCoin R, R).
Proof.
  intros HV HD. apply forallb_passes in HV.
  exists (map truncatedCoin D), (changes D []).
  split; [unfold DecCoins_TruncateDecimal; rewrite truncateLoop_valid; auto|].
  pose proof (changes_bounds D HV HD) as HB.
  pose proof (changes_denoms D HV) as HDen.
  assert (HR : ascending (changes D [])) by (apply changes_ascending; constructor).
  assert (HVR : Forall (fun c => Validate c false = None) (changes D [])).
  { apply Forall_forall. intros r Hr. rewrite Forall_forall in HB, HDen.
    apply Validate_None. rewrite validateDecCoinAmount_lax.
    specialize (HB r Hr). specialize (HDen r Hr). tauto. }
  unfold DecCoins_TruncateDecimal. rewrite (truncateLoop_valid _ HVR).
  rewrite (changes_ordered _ [] HR); [|constructor]. cbn [app].
  rewrite Forall_forall in HB. f_equal. f_equal.
  - apply map_ext_in. intros r Hr. exact (proj1 (small_truncates_to_zero r (HB r Hr))).
  - rewrite <- (map_id (changes D [])) at 2.
    apply map_ext_in. intros r Hr. exact (proj2 (small_truncates_to_zero r (HB r Hr))).
Qed.

Lemma NewDecCoinFromCoin_returns (coin : Coin) (dc : DecCoin) :
  NewDecCoinFromCoin coin = Return dc <->
  dc = decOfCoin coin /\
  0 <= Coin_Amount coin /\
  validateCoinDenomContainsSpace (Coin_Denom coin) = None /\
  validateCoinDenomCase (Coin_Denom coin) = None.
Proof.
  unfold NewDecCoinFromCoin, validated. fold (decOfCoin coin). split.
  - destruct (Validate (decOfCoin coin) false) eqn:V; [discriminate|].
    intros [= <-]. split; [reflexivity|].
    apply Validate_None in V. rewrite validateDecCoinAmount_lax in V.
    unfold decOfCoin in V. cbn [Denom Amount] in V.
    destruct V as (Ha & Hs & Hc). repeat split; try assumption.
    unfold NewDecFromInt, ZeroDec in Ha. pose proof precisionReuse_pos. nia.
  - intros (-> & Ha & Hs & Hc). rewrite (decOfCoin_valid coin Ha Hs Hc). reflexivity.
Qed.

Lemma NewDecCoins_spec (coins : Coins) (dcs : DecCoins) :
  NewDecCoins coins = Return dcs <->
  dcs = map decOfCoin coins /\
  Forall (fun c => 0 <= Coin_Amount c /\
                   validateCoinDenomContainsSpace (Coin_Denom c) = None /\
                   validateCoinDenomCase (Coin_Denom c) = None) coins.
Proof.
  revert dcs. induction coins as [|c coins IH]; intros dcs.
  - simpl. split; [intros [= <-]; split; [reflexivity|constructor]|].
    intros [-> _]. reflexivity.
  - cbn [NewDecCoins map]. split.
    + destruct (NewDecCoinFromCoin c) as [dc|p] eqn:E; [|discriminate].
      cbn [bind]. destruct (NewDecCoins coins) as [l|p] eqn:El; [|discriminate].
      cbn [bind]. intros [= <-].
      apply NewDecCoinFromCoin_returns in E. destruct E as [-> E].
      destruct (proj1 (IH l) eq_refl) as [-> F].
      split; [reflexivity | constructor; assumption].
    + intros [-> F]. inversion F as [|? ? Hc F']; subst.
      rewrite (proj2 (NewDecCoinFromCoin_returns c (decOfCoin c)) (conj eq_refl Hc)).
      cbn [bind]. rewrite (proj2 (IH (map decOfCoin coins)) (conj eq_refl F')).
      reflexivity.
Qed.

(** X17: [NewDecCoins] returns exactly when every coin has a
    non-negative amount and a denomination that passes both checks, and
    then returns the coins' decimal counterparts in the same order;
    otherwise it panics. *)
Theorem NewDecCoins_returns (coins : Coins) (dcs : DecCoins) :
  NewDecCoins coins = Return dcs <->
  dcs = map decOfCoin coins /\
  Forall (fun c => 0 <= Coin_Amount c /\
                   validateCoinDenomContainsSpace (Coin_Denom c) = None /\
                   validateCoinDenomCase (Coin_Denom c) = None) coins.
Proof. apply NewDecCoins_spec. Qed.

(** X18: integer coins with non-negative amounts and admissible
    denominations survive the way to decimal coins and back:
    [TruncateDecimal] of [NewDecCoins(coins)] returns [coins] themselves,
    in their order, and a remainder set whose amounts are all zero. *)
Theorem Coins_round_trip (coins : Coins) :
  Forall (fun c => 0 <= Coin_Amount c /\
                   validateCoinDenomContainsSpace (Coin_Denom c) = None /\
                   validateCoinDenomCase (Coin_Denom c) = None) coins ->
  exists (dcs R : DecCoins),
    NewDecCoins coins = Return dcs /\
    DecCoins_TruncateDecimal dcs = Return (coins, R) /\
    DecCoins_IsZero R = true.
Proof.
  intros F. exists (map decOfCoin coins), (changes (map decOfCoin coins) []).
  split; [apply NewDecCoins_spec; split; [reflexivity | exact F]|].
  assert (V : Forall (fun c => Validate c false = None) (map decOfCoin coins)).
  { apply Forall_forall. intros x Hx. apply in_map_iff in Hx.
    destruct Hx as (c & <- & Hc). rewrite Forall_forall in F.
    destruct (F c Hc) as (Ha & Hs & Hd). apply decOfCoin_valid; assumption. }
  split.
  - unfold DecCoins_TruncateDecimal. rewrite (truncateLoop_valid _ V). cbn [app].
    rewrite map_map. f_equal. f_equal. rewrite <- (map_id coins) at 2.
    apply map_ext. apply truncatedCoin_decOfCoin.
  - unfold DecCoins_IsZero. apply forallb_forall.
    apply Forall_forall.
    apply (changes_Forall (fun c => Dec_IsZero (Amount c) = true)).
    + intros a b Ha Hb _. cbn [Amount]. dec_unfold.
      apply Z.eqb_eq in Ha, Hb. apply Z.eqb_eq. lia.
    + apply Forall_forall. intros x Hx. rewrite map_map in Hx.
      apply in_map_iff in Hx. destruct Hx as (c & <- & _).
      rewrite changeCoin_decOfCoin. reflexivity.
    + constructor.
Qed.

(** ** Constructors *)

Lemma validated_returns (c c' : DecCoin) (strict : bool) :
  validated c strict = Return c' <-> c' = c /\ Validate c strict = None.
Proof.
  unfold validated. destruct (Validate c strict); split.
  - discriminate.
  - intros [_ H]. discriminate.
  - intros [= <-]. auto.
  - intros [-> _]. reflexivity.
Qed.

Lemma validated_strict (c c' : DecCoin) :
  validated c true = Return c' <->
  validated c false = Return c' /\ Amount c <> ZeroDec.
Proof.
  rewrite !validated_returns, !Validate_None.
  rewrite validateDecCoinAmount_strict, validateDecCoinAmount_lax.
  unfold ZeroDec. split.
  - intros (-> & H1 & H2 & H3). repeat split; try assumption; lia.
  - intros ((-> & H1 & H2 & H3) & H4). repeat split; try assumption; lia.
Qed.

Lemma IsValid_single (c : DecCoin) :
  DecCoins_IsValid [c] = true <-> Validate c true = None.
Proof.
  rewrite DecCoins_IsValid_iff. split.
  - intros [H _]. inversion H; subst. assumption.
  - intros H. split; repeat constructor. exact H.
Qed.

(** X19: each strict constructor returns a coin exactly when its lax
    counterpart returns that coin and the amount is not zero; the coin a
    strict constructor returns is a canonical one-entry set, and a coin
    of amount zero returned by a lax constructor is not. *)
Theorem strict_constructors (denom : string) (n : Z) (amount : Dec) (c : DecCoin) :
  (NewPositiveDecCoin denom n = Return c <->
   NewDecCoin denom n = Return c /\ n <> 0) /\
  (NewPositiveDecCoinFromDec denom amount = Return c <->
   NewDecCoinFromDec denom amount = Return c /\ amount <> ZeroDec) /\
  (NewPositiveDecCoin denom n = Return c -> DecCoins_IsValid [c] = true) /\
  (NewPositiveDecCoinFromDec denom amount = Return c ->
   DecCoins_IsValid [c] = true) /\
  (NewDecCoin denom 0 = Return c -> DecCoins_IsValid [c] = false) /\
  (NewDecCoinFromDec denom ZeroDec = Return c -> DecCoins_IsValid [c] = false).
Proof.
  unfold NewPositiveDecCoin, NewDecCoin, NewPositiveDecCoinFromDec, NewDecCoinFromDec.
  assert (Hz : forall d, DecCoins_IsValid [mkDecCoin d 0] = false).
  { intros d. destruct (DecCoins_IsValid [mkDecCoin d 0]) eqn:E; [|reflexivity].
    apply IsValid_single, Validate_strict_positive in E. simpl in E.
    unfold ZeroDec in E. lia. }
  split; [|split; [|split; [|split; [|split]]]].
  - rewrite validated_strict. cbn [Amount]. unfold NewDec, ZeroDec.
    pose proof precisionReuse_pos. split; intros [H1 H2]; (split; [exact H1|]); nia.
  - rewrite validated_strict. reflexivity.
  - intros H. apply validated_returns in H. destruct H as [-> H].
    apply IsValid_single. exact H.
  - intros H. apply validated_returns in H. destruct H as [-> H].
    apply IsValid_single. exact H.
  - intros H. apply validated_returns in H. destruct H as [-> _]. apply Hz.
  - intros H. apply validated_returns in H. destruct H as [-> _]. apply Hz.
Qed.

(** ** The parsers *)

Lemma parseValidated_ok (coinStr : string) (strict : bool) (c : DecCoin) :
  parseValidated coinStr strict = (c, None) <->
  parseDecCoinString coinStr = (c, None) /\ Validate c strict = None.
Proof.
  unfold parseValidated.
  destruct (parseDecCoinString coinStr) as [coin [e|]].
  - split; [discriminate | intros [H _]; discriminate].
  - destruct (Validate coin strict) eqn:V; split.
    + discriminate.
    + intros [[= ->] H]. congruence.
    + intros [= <-]. auto.
    + intros [[= ->] _]. reflexivity.
Qed.

Lemma parseValidated_error (coinStr : string) (strict : bool) (c : DecCoin)
  (err : error_value) :
  parseValidated coinStr strict = (c, Some err) -> c = DecCoin_zero.
Proof.
  unfold parseValidated.
  destruct (parseDecCoinString coinStr) as [coin [e|]]; [intros [= <- _]; reflexivity|].
  destruct (Validate coin strict); [intros [= <- _]; reflexivity | discriminate].
Qed.

(** X20: [ParsePositiveDecCoin] succeeds with a coin exactly when
    [ParseDecCoin] succeeds with it and its amount is strictly positive;
    a coin either parser returns without an error passes [Validate] in
    the parser's mode, and with an error both return the zero value of
    [DecCoin]. *)
Theorem ParsePositiveDecCoin_iff (coinStr : string) :
  (forall c, ParsePositiveDecCoin coinStr = (c, None) <->
             ParseDecCoin coinStr = (c, None) /\ ZeroDec < Amount c) /\
  (forall c, ParseDecCoin coinStr = (c, None) -> Validate c false = None) /\
  (forall c, ParsePositiveDecCoin coinStr = (c, None) -> Validate c true = None) /\
  (forall c err, ParseDecCoin coinStr = (c, Some err) -> c = DecCoin_zero) /\
  (forall c err, ParsePositiveDecCoin coinStr = (c, Some err) -> c = DecCoin_zero).
Proof.
  unfold ParsePositiveDecCoin, ParseDecCoin.
  split; [|split; [|split; [|split]]].
  - intros c. rewrite !parseValidated_ok, !Validate_None.
    rewrite validateDecCoinAmount_strict, validateDecCoinAmount_lax.
    unfold ZeroDec. split.
    + intros (H & H1 & H2 & H3). repeat split; try assumption; lia.
    + intros ((H & H1 & H2 & H3) & H4). repeat split; assumption.
  - intros c H. apply parseValidated_ok in H. tauto.
  - intros c H. apply parseValidated_ok in H. tauto.
  - intros c err. apply parseValidated_error.
  - intros c err. apply parseValidated_error.
Qed.

Lemma parseLoop_ok (coinStrs : list string) :
  forall acc coins,
    parseLoop coinStrs acc = (coins, None) ->
    Forall (fun t => snd (ParseDecCoin t) = None) coinStrs /\
    coins = acc ++ map (fun t => fst (ParseDecCoin t)) coinStrs.
Proof.
  induction coinStrs as [|t rest IH]; intros acc coins.
  - simpl. intros [= <-]. split; [constructor | rewrite app_nil_r; reflexivity].
  - cbn [parseLoop map]. destruct (ParseDecCoin t) as [c [e|]] eqn:E; [discriminate|].
    intros H. apply IH in H. destruct H as [F ->].
    split; [constructor; [rewrite E; reflexivity | exact F]|].
    cbn [fst]. rewrite <- app_assoc. reflexivity.
Qed.

Lemma ParseDecCoins_ok (coinsStr : string) (coins : DecCoins) :
  strings.TrimSpace coinsStr <> EmptyString ->
  ParseDecCoins coinsStr = (coins, None) ->
  Forall (fun t => snd (ParseDecCoin t) = None)
         (splitRe_Split (strings.TrimSpace coinsStr)) /\
  Permutation coins (map (fun t => fst (ParseDecCoin t))
                         (splitRe_Split (strings.TrimSpace coinsStr))) /\
  DecCoins_IsValid coins = true.
Proof.
  intros Hne. unfold ParseDecCoins.
  destruct (String.length (strings.TrimSpace coinsStr)) eqn:L;
    [destruct (strings.TrimSpace coinsStr); [congruence|discriminate]|].
  cbn [Nat.eqb].
  destruct (parseLoop (splitRe_Split (strings.TrimSpace coinsStr)) [])
    as [cs [e|]] eqn:E; [discriminate|].
  destruct (DecCoins_IsValid (DecCoins_Sort cs)) eqn:V; cbn [negb]; [|discriminate].
  intros [= <-]. apply parseLoop_ok in E. destruct E as [F ->]. cbn [app] in *.
  split; [exact F|]. split; [|exact V].
  apply DecCoins_Sort_spec.
Qed.

Lemma ParseDecCoins_result (coinsStr : string) :
  (exists coins, ParseDecCoins coinsStr = (coins, None)) \/
  (exists err, ParseDecCoins coinsStr = ([], Some err)).
Proof.
  unfold ParseDecCoins.
  destruct (Nat.eqb _ 0); [left; eexists; reflexivity|].
  destruct (parseLoop _ []) as [cs [e|]]; [right; eexists; reflexivity|].
  destruct (DecCoins_IsValid (DecCoins_Sort cs)); cbn [negb].
  - left. eexists. reflexivity.
  - right. eexists. reflexivity.
Qed.

(** X21: when [ParseDecCoins] succeeds on a string that is not blank,
    every piece between the separators parses in [ParseDecCoin] and the
    returned set consists of exactly the coins of the pieces, one entry
    for each piece, in canonical order. *)
Theorem ParseDecCoins_success (coinsStr : string) (coins : DecCoins) :
  strings.TrimSpace coinsStr <> EmptyString ->
  ParseDecCoins coinsStr = (coins, None) ->
  Forall (fun t => snd (ParseDecCoin t) = None)
         (splitRe_Split (strings.TrimSpace coinsStr)) /\
  Permutation coins (map (fun t => fst (ParseDecCoin t))
                         (splitRe_Split (strings.TrimSpace coinsStr))) /\
  List.length coins = List.length (splitRe_Split (strings.TrimSpace coinsStr)) /\
  increasing coins = true.
Proof.
  intros Hne H. destruct (ParseDecCoins_ok _ _ Hne H) as (F & P & V).
  split; [exact F|]. split; [exact P|]. split.
  - rewrite (Permutation_length P). apply length_map.
  - apply DecCoins_IsValid_increasing in V. tauto.
Qed.

Lemma ascending_NoDup (coins : DecCoins) :
  ascending coins -> NoDup (map Denom coins).
Proof.
  induction 1 as [|c coins _ IH Hab]; simpl; constructor; [|exact IH].
  intros Hin. apply in_map_iff in Hin. destruct Hin as (x & E & Hx).
  rewrite Forall_forall in Hab. specialize (Hab x Hx). unfold ltDenom in Hab.
  rewrite E in Hab. exact (slt_irrefl _ Hab).
Qed.

(** X22: [ParseDecCoins] returns an error, and no coins, when a piece
    gives a coin of amount zero (which [ParseDecCoin] alone accepts) and
    when the pieces at two different positions give coins of the same
    denomination. *)
Theorem ParseDecCoins_rejects (coinsStr : string) :
  strings.TrimSpace coinsStr <> EmptyString ->
  (forall tok,
      In tok (splitRe_Split (strings.TrimSpace coinsStr)) ->
      Amount (fst (ParseDecCoin tok)) = ZeroDec ->
      exists err, ParseDecCoins coinsStr = ([], Some err)) /\
  (forall i j ti tj,
      i <> j ->
      nth_error (splitRe_Split (strings.TrimSpace coinsStr)) i = Some ti ->
      nth_error (splitRe_Split (strings.TrimSpace coinsStr)) j = Some tj ->
      Denom (fst (ParseDecCoin ti)) = Denom (fst (ParseDecCoin tj)) ->
      exists err, ParseDecCoins coinsStr = ([], Some err)).
Proof.
  intros Hne.
  set (toks := splitRe_Split (strings.TrimSpace coinsStr)).
  split.
  - intros tok Hin Hz.
    destruct (ParseDecCoins_result coinsStr) as [[coins H]|H]; [|exact H].
    exfalso. destruct (ParseDecCoins_ok _ _ Hne H) as (_ & P & V).
    apply DecCoins_IsValid_iff in V. destruct V as [V _].
    rewrite Forall_forall in V.
    assert (Hc : In (fst (ParseDecCoin tok)) coins).
    { apply (Permutation_in _ (Permutation_sym P)).
      apply (in_map (fun t => fst (ParseDecCoin t))). exact Hin. }
    specialize (V _ Hc). apply Validate_strict_positive in V. lia.
  - intros i j ti tj Hij Hi Hj E.
    destruct (ParseDecCoins_result coinsStr) as [[coins H]|H]; [|exact H].
    exfalso. destruct (ParseDecCoins_ok _ _ Hne H) as (_ & P & V).
    apply DecCoins_IsValid_iff in V. destruct V as [_ S].
    apply ascending_NoDup in S.
    apply (Permutation_NoDup (Permutation_map Denom P)) in S.
    rewrite map_map in S. fold toks in S.
    rewrite NoDup_nth_error in S. apply Hij. apply S.
    + rewrite length_map. apply nth_error_Some. fold toks in Hi. congruence.
    + fold toks in Hi, Hj. rewrite !nth_error_map, Hi, Hj. simpl. congruence.
Qed.

(** ** Sorting *)

Lemma sortInsert_last (c : DecCoin) (acc : DecCoins) :
  Forall (fun x => leDenom x c) acc -> sortInsert c acc = acc ++ [c].
Proof.
  induction 1 as [|x acc Hx _ IH]; [reflexivity|].
  cbn [sortInsert app]. unfold Less.
  destruct (String.ltb (Denom c) (Denom x)) eqn:L.
  - apply ltb_slt in L. unfold leDenom in Hx. apply leb_not_slt in Hx. contradiction.
  - rewrite IH. reflexivity.
Qed.

Lemma Sort_ordered (coins : DecCoins) :
  forall acc,
    nondecreasing (acc ++ coins) ->
    fold_left (fun sorted c => sortInsert c sorted) coins acc = acc ++ coins.
Proof.
  induction coins as [|c coins IH]; intros acc H.
  - simpl. rewrite app_nil_r. reflexivity.
  - cbn [fold_left]. rewrite sortInsert_last.
    + rewrite IH; rewrite <- app_assoc; [reflexivity | exact H].
    + unfold nondecreasing in H. apply StronglySorted_app in H.
      destruct H as (_ & _ & H). apply Forall_forall. intros x Hx.
      apply H; [exact Hx | now left].
Qed.

(** X23: [Sort] returns the entries of the slice, each as often as it
    occurs, ordered by denomination; a slice whose denominations strictly
    increase, and so every canonical set, is returned as it is. *)
Theorem Sort_permutes (coins : DecCoins) :
  Permutation (DecCoins_Sort coins) coins /\
  sorted (DecCoins_Sort coins) = true /\
  (increasing coins = true -> DecCoins_Sort coins = coins) /\
  (DecCoins_IsValid coins = true -> DecCoins_Sort coins = coins).
Proof.
  destruct (DecCoins_Sort_spec coins) as [P S].
  assert (H : increasing coins = true -> DecCoins_Sort coins = coins).
  { intros Hi. apply increasing_ascending, ascending_nondecreasing in Hi.
    unfold DecCoins_Sort. rewrite Sort_ordered; [reflexivity | exact Hi]. }
  split; [exact P|]. split; [exact S|]. split; [exact H|].
  intros V. apply H. apply DecCoins_IsValid_increasing in V. tauto.
Qed.

(** X24: [Less] is a strict order of the coins by denomination, as
    [sort.Sort] needs it: no coin is less than itself, [Less] is
    transitive, never holds in both directions, and two coins of which
    neither is less than the other have the same denomination. *)
Theorem Less_strict_order (a b c : DecCoin) :
  Less a a = false /\
  (Less a b = true -> Less b c = true -> Less a c = true) /\
  (Less a b = true -> Less b a = false) /\
  (Less a b = false -> Less b a = false -> Denom a = Denom b).
Proof.
  unfold Less. split; [|split; [|split]].
  - destruct (String.ltb (Denom a) (Denom a)) eqn:E; [|reflexivity].
    apply ltb_slt in E. destruct (slt_irrefl _ E).
  - rewrite !ltb_slt. apply slt_trans.
  - intros H. apply ltb_slt in H.
    destruct (String.ltb (Denom b) (Denom a)) eqn:E; [|reflexivity].
    apply ltb_slt in E. destruct (slt_asym _ _ H E).
  - intros H1 H2.
    destruct (slt_total (Denom a) (Denom b)) as [L|[E|L]]; [|exact E|];
      apply ltb_slt in L; congruence.
Qed.

(** ** Validity, lookup and single coins *)

(** X26: [IsValid] is true exactly when every entry passes
    [Validate(true)] (strictly positive amount, denomination accepted by
    both checks) and each denomination is strictly below the next: an
    entry with a rejected denomination makes the set invalid too. *)
Theorem IsValid_characterised (coins : DecCoins) :
  DecCoins_IsValid coins = true <->
  forallb (fun c => passes (Validate c true)) coins = true /\
  increasing coins = true.
Proof. apply DecCoins_IsValid_increasing. Qed.

(** X27: for slices with strictly increasing denominations, whatever the
    signs of the amounts, [Plus(A, B)] has strictly increasing
    denominations and [AmountOf] finds in it the sum of the amounts it
    finds in [A] and in [B]. *)
Theorem Plus_AmountOf_signed (A B : DecCoins) :
  increasing A = true -> increasing B = true ->
  exists S, DecCoins_Plus A B = Return S /\
            increasing S = true /\
            (forall d, DecCoins_AmountOf S d
                       = Dec_Add (DecCoins_AmountOf A d) (DecCoins_AmountOf B d)).
Proof.
  rewrite !increasing_ascending. intros SA SB. exists (merge A B).
  split; [apply DecCoins_Plus_merge|].
  split; [apply increasing_ascending, merge_ascending; assumption|].
  intros d. rewrite !AmountOf_sumOf by auto using merge_ascending.
  apply merge_sumOf.
Qed.

(** X28: on coins of one denomination, [DecCoin.Minus] undoes
    [DecCoin.Plus], and [DecCoin.Plus] does not depend on the order of
    its operands. *)
Theorem DecCoin_Plus_Minus_inverse (a b : DecCoin) :
  Denom a = Denom b ->
  (c <- DecCoin_Plus a b ;; DecCoin_Minus c b) = Return a /\
  (c <- DecCoin_Minus a b ;; DecCoin_Plus c b) = Return a /\
  DecCoin_Plus a b = DecCoin_Plus b a.
Proof.
  intros E. destruct a as [d x], b as [d' y]. cbn [Denom] in E. subst d'.
  unfold DecCoin_Plus, DecCoin_Minus. cbn [Denom Amount].
  rewrite String.eqb_refl. cbn [negb bind Denom Amount].
  rewrite String.eqb_refl. cbn [negb]. dec_unfold.
  split; [|split]; f_equal; f_equal; lia.
Qed.

Lemma splitRe_Split_single (s : string) :
  noSeparator s = true -> splitRe_Split s = [s].
Proof.
  induction s as [|c s IH]; [reflexivity|].
  cbn [noSeparator splitRe_Split]. intros H. apply andb_true_iff in H.
  destruct H as [Hc Hs]. apply negb_true_iff in Hc. rewrite Hc, (IH Hs). reflexivity.
Qed.

(** X29: on a string that is not blank and has no separator,
    [ParseDecCoins] returns a set of one coin exactly when
    [ParsePositiveDecCoin] accepts the trimmed string with that coin, and
    it never returns a set of another size. *)
Theorem ParseDecCoins_single (coinsStr : string) :
  strings.TrimSpace coinsStr <> EmptyString ->
  noSeparator (strings.TrimSpace coinsStr) = true ->
  (forall c, ParseDecCoins coinsStr = ([c], None) <->
             ParsePositiveDecCoin (strings.TrimSpace coinsStr) = (c, None)) /\
  (forall coins, ParseDecCoins coinsStr = (coins, None) -> List.length coins = 1%nat).
Proof.
  intros Hne Hsep. unfold ParseDecCoins.
  destruct (String.length (strings.TrimSpace coinsStr)) eqn:L;
    [destruct (strings.TrimSpace coinsStr); [congruence|discriminate]|].
  cbn [Nat.eqb]. rewrite (splitRe_Split_single _ Hsep). cbn [parseLoop].
  unfold ParsePositiveDecCoin. unfold ParseDecCoin at 1 2.
  destruct (parseValidated (strings.TrimSpace coinsStr) false) as [c0 [e|]] eqn:E.
  - split; [|discriminate]. intros c. split; [discriminate|].
    intros H. apply parseValidated_ok in H. destruct H as [H Vc].
    apply Validate_strict_lax in Vc.
    unfold parseValidated in E. rewrite H, Vc in E. discriminate.
  - cbn [app]. apply parseValidated_ok in E. destruct E as [E V0].
    change (DecCoins_Sort [c0]) with [c0].
    destruct (DecCoins_IsValid [c0]) eqn:V; cbn [negb].
    + apply IsValid_single in V. split.
      * intros c. rewrite parseValidated_ok. split.
        -- intros [= <-]. auto.
        -- intros [H _]. rewrite E in H. injection H as <-. reflexivity.
      * intros coins [= <-]. reflexivity.
    + split; [|discriminate]. intros c. split; [discriminate|].
      intros H. apply parseValidated_ok in H. destruct H as [H Vc].
      assert (c = c0) by congruence. subst c.
      apply IsValid_single in Vc. congruence.
Qed.

End MoreProperties.

(** ** Display *)

Section DisplayProperties.

Variable Dec_String : Dec -> string.

Lemma stringLoop_filter (coins : DecCoins) :
  forall out,
    stringLoop Dec_String coins out
    = out ++ map (fun c => String.append (Dec_String (Amount c)) (Denom c))
                 (filter DecCoin_IsPositive coins).
Proof.
  induction coins as [|c coins IH]; intros out.
  - simpl. rewrite app_nil_r. reflexivity.
  - cbn [stringLoop filter]. destruct (DecCoin_IsPositive c) eqn:E.
    + rewrite IH, <- app_assoc. cbn [map app]. unfold DecCoin_String.
      rewrite E. reflexivity.
    + apply IH.
Qed.

(** X25: [DecCoins.String] is the list, joined by commas, of amount and
    denomination of the entries with a strictly positive amount, in their
    order: entries that are zero or negative leave no trace, and a set
    without a positive entry gives the empty string. *)
Theorem String_positive_entries (coins : DecCoins) :
  DecCoins_String Dec_String coins
  = strings_Join
      (map (fun c => String.append (Dec_String (Amount c)) (Denom c))
           (filter DecCoin_IsPositive coins)) "," /\
  DecCoins_String Dec_String coins
  = DecCoins_String Dec_String (filter DecCoin_IsPositive coins) /\
  (existsb DecCoin_IsPositive coins = false ->
   DecCoins_String Dec_String coins = EmptyString).
Proof.
  assert (H : forall cs,
             DecCoins_String Dec_String cs
             = strings_Join
                 (map (fun c => String.append (Dec_String (Amount c)) (Denom c))
                      (filter DecCoin_IsPositive cs)) ",").
  { intros cs. unfold DecCoins_String. destruct cs as [|c cs]; [reflexivity|].
    cbn [List.length Nat.eqb]. rewrite stringLoop_filter. reflexivity. }
  split; [apply H|]. split.
  - rewrite (H coins), (H (filter DecCoin_IsPositive coins)).
    f_equal. f_equal. symmetry.
    induction coins as [|c coins IH]; [reflexivity|].
    cbn [filter]. destruct (DecCoin_IsPositive c) eqn:E; [|exact IH].
    cbn [filter]. rewrite E, IH. reflexivity.
  - intros Z. rewrite H.
    replace (filter DecCoin_IsPositive coins) with (@nil DecCoin); [reflexivity|].
    symmetry. induction coins as [|c coins IH]; [reflexivity|].
    cbn [existsb] in Z. apply orb_false_iff in Z. destruct Z as [Zc Z].
    cbn [filter]. rewrite Zc. apply IH. exact Z.
Qed.

End DisplayProperties.

(** * The theorems on concrete sets *)

Import Examples.

(** [TruncateDecimal] on a negative amount, on a denomination with an
    upper-case letter, and on two entries of one denomination. *)
Lemma TruncateDecimal_counterexample :
  ~ (exists I R,
        DecCoins_TruncateDecimal (pkg := Sample.package) [atom (Sample.tenths (-5))]
        = Return (I, R)) /\
  ~ (exists I R,
        DecCoins_TruncateDecimal (pkg := Sample.package)
          [mkDecCoin "Atom" (Sample.tenths 5)]
        = Return (I, R)) /\
  ~ (exists I R,
        DecCoins_TruncateDecimal (pkg := Sample.package)
          [atom (Sample.tenths 5); atom (Sample.tenths 5)]
        = Return (I, R) /\
        Forall (fun r => ZeroDec <= Amount r < OneDec) R).
Proof.
  split; [|split].
  - intros (I & R & H). vm_compute in H. discriminate.
  - intros (I & R & H). vm_compute in H. discriminate.
  - intros (I & R & H & HR). vm_compute in H. injection H as <- <-.
    inversion HR as [|? ? Hr _]; subst. vm_compute in Hr.
    destruct Hr as [_ Hr]. discriminate.
Qed.

Lemma TruncateDecimal_conservation_witness :
  forallb (fun c => passes (Validate (pkg := Sample.package) c false))
          [atom (Sample.tenths 37); btc (Sample.tenths 20)] = true /\
  distinct [atom (Sample.tenths 37); btc (Sample.tenths 20)] = true /\
  exists (I : Coins) (R : DecCoins),
    DecCoins_TruncateDecimal (pkg := Sample.package)
      [atom (Sample.tenths 37); btc (Sample.tenths 20)] = Return (I, R) /\
    (forall d, Dec_Add (NewDecFromInt (Coins_sumOf d I)) (DecCoins_AmountOf R d)
               = sumOf d [atom (Sample.tenths 37); btc (Sample.tenths 20)]) /\
    (increasing [atom (Sample.tenths 37); btc (Sample.tenths 20)] = true ->
     forall d, DecCoins_AmountOf [atom (Sample.tenths 37); btc (Sample.tenths 20)] d
               = sumOf d [atom (Sample.tenths 37); btc (Sample.tenths 20)]) /\
    Forall (fun r => ZeroDec <= Amount r < OneDec) R.
Proof.
  split; [reflexivity|]. split; [reflexivity|].
  apply (TruncateDecimal_conservation (pkg := Sample.package)); reflexivity.
Defined.

Lemma Plus_canonical_witness :
  DecCoins_IsValid (pkg := Sample.package) [atom (NewDec 2); btc (NewDec 1)] = true /\
  DecCoins_IsValid (pkg := Sample.package) [atom (NewDec 3); eth (NewDec 4)] = true /\
  exists S : DecCoins,
    DecCoins_Plus [atom (NewDec 2); btc (NewDec 1)] [atom (NewDec 3); eth (NewDec 4)]
    = Return S /\
    DecCoins_IsValid (pkg := Sample.package) S = true /\
    DecCoins_Plus [atom (NewDec 3); eth (NewDec 4)] [atom (NewDec 2); btc (NewDec 1)]
    = Return S /\
    (forall d, DecCoins_AmountOf S d
               = Dec_Add (DecCoins_AmountOf [atom (NewDec 2); btc (NewDec 1)] d)
                         (DecCoins_AmountOf [atom (NewDec 3); eth (NewDec 4)] d)) /\
    (forall C, DecCoins_IsValid (pkg := Sample.package) C = true ->
       (ab <- DecCoins_Plus [atom (NewDec 2); btc (NewDec 1)]
                            [atom (NewDec 3); eth (NewDec 4)] ;;
        DecCoins_Plus ab C)
       = (bc <- DecCoins_Plus [atom (NewDec 3); eth (NewDec 4)] C ;;
          DecCoins_Plus [atom (NewDec 2); btc (NewDec 1)] bc)).
Proof.
  split; [reflexivity|]. split; [reflexivity|].
  apply (Plus_canonical (pkg := Sample.package)); reflexivity.
Defined.

Lemma Minus_self_empty_witness :
  DecCoins_IsValid (pkg := Sample.package) [atom (NewDec 2); btc (NewDec 1)] = true /\
  DecCoins_Minus [atom (NewDec 2); btc (NewDec 1)] [atom (NewDec 2); btc (NewDec 1)]
  = Return [] /\
  DecCoins_Plus [atom (NewDec 2); btc (NewDec 1)]
                (DecCoins_Negative [atom (NewDec 2); btc (NewDec 1)]) = Return [] /\
  (forall d, Dec_Add (DecCoins_AmountOf [atom (NewDec 2); btc (NewDec 1)] d)
                     (DecCoins_AmountOf
                        (DecCoins_Negative [atom (NewDec 2); btc (NewDec 1)]) d)
             = ZeroDec) /\
  (forall d, DecCoins_AmountOf [] d = ZeroDec) /\
  DecCoins_IsValid (pkg := Sample.package) [] = true.
Proof.
  split; [reflexivity|].
  apply (Minus_self_empty (pkg := Sample.package)). reflexivity.
Defined.

Lemma AmountOf_sorted_witness :
  sorted [atom (NewDec 2); btc (NewDec 1); eth (NewDec 4)] = true /\
  DecCoins_AmountOf [atom (NewDec 2); btc (NewDec 1); eth (NewDec 4)] "eth"
  = sumOf "eth" [atom (NewDec 2); btc (NewDec 1); eth (NewDec 4)].
Proof.
  split; [reflexivity|].
  destruct (AmountOf_sorted [atom (NewDec 2); btc (NewDec 1); eth (NewDec 4)] "eth"
              eq_refl) as (_ & H & _).
  apply H. reflexivity.
Defined.

Lemma IsValid_rejects_accepts_witness :
  DecCoins_IsValid (pkg := Sample.package) [btc (NewDec 1); atom (NewDec 2)] = false /\
  DecCoins_IsValid (pkg := Sample.package) [atom (NewDec 1); atom (NewDec 2)] = false /\
  DecCoins_IsValid (pkg := Sample.package) [atom (NewDec 1); btc ZeroDec] = false /\
  DecCoins_IsValid (pkg := Sample.package) [atom (NewDec 1)] = true /\
  DecCoins_IsValid (pkg := Sample.package) [atom (NewDec 1); btc (NewDec 2)] = true.
Proof.
  split; [|split; [|split; [|split]]].
  - destruct (IsValid_rejects_accepts (pkg := Sample.package)
                [btc (NewDec 1); atom (NewDec 2)]) as (H & _).
    apply H. reflexivity.
  - destruct (IsValid_rejects_accepts (pkg := Sample.package)
                [atom (NewDec 1); atom (NewDec 2)]) as (_ & H & _).
    apply (H 0%nat 1%nat (atom (NewDec 1)) (atom (NewDec 2)));
      [lia | reflexivity | reflexivity | reflexivity].
  - destruct (IsValid_rejects_accepts (pkg := Sample.package)
                [atom (NewDec 1); btc ZeroDec]) as (_ & _ & H & _).
    apply (H (btc ZeroDec)); [right; left; reflexivity | reflexivity].
  - destruct (IsValid_rejects_accepts (pkg := Sample.package) [])
      as (_ & _ & _ & _ & H & _).
    apply H; reflexivity.
  - destruct (IsValid_rejects_accepts (pkg := Sample.package)
                [atom (NewDec 1); btc (NewDec 2)]) as (_ & _ & _ & _ & _ & H).
    apply H; [|reflexivity]. repeat constructor.
Defined.

Lemma ParseDecCoins_all_or_nothing_witness :
  ParseDecCoins (pkg := Sample.package) "  " = ([], None) /\
  (exists err, ParseDecCoins (pkg := Sample.package) "1.5atom,btc" = ([], Some err)) /\
  sorted (fst (ParseDecCoins (pkg := Sample.package) "2btc;1.5atom")) = true /\
  DecCoins_IsValid (pkg := Sample.package)
    (fst (ParseDecCoins (pkg := Sample.package) "2btc;1.5atom")) = true.
Proof.
  split; [|split].
  - destruct (ParseDecCoins_all_or_nothing (pkg := Sample.package) "  ") as (H & _).
    apply H. reflexivity.
  - destruct (ParseDecCoins_all_or_nothing (pkg := Sample.package) "1.5atom,btc")
      as (_ & _ & _ & H & _).
    apply (H "btc"); [discriminate | right; left; reflexivity | discriminate].
  - destruct (ParseDecCoins_all_or_nothing (pkg := Sample.package) "2btc;1.5atom")
      as (_ & _ & _ & _ & _ & H).
    destruct (H [atom (Sample.tenths 15); btc (NewDec 2)] eq_refl) as (H1 & _ & H2).
    split; assumption.
Defined.

Lemma DecCoin_Plus_Minus_denom_witness :
  DecCoin_Plus (atom (NewDec 1)) (btc (NewDec 2))
  = Panic (PanicString (denomDifferent "atom" "btc")) /\
  DecCoin_Minus (atom (NewDec 3)) (atom (NewDec 2))
  = Return (atom (Dec_Sub (NewDec 3) (NewDec 2))).
Proof.
  split.
  - destruct (DecCoin_Plus_Minus_denom (atom (NewDec 1)) (btc (NewDec 2))) as (H & _).
    apply H. discriminate.
  - destruct (DecCoin_Plus_Minus_denom (atom (NewDec 3)) (atom (NewDec 2))) as (_ & H).
    apply H. reflexivity.
Defined.

Lemma Validate_amount_witness :
  Sample.containsSpace "atom" = None /\
  Sample.denomCase "atom" = None /\
  (Validate (pkg := Sample.package) (atom ZeroDec) false = None <-> ZeroDec <= ZeroDec) /\
  (Validate (pkg := Sample.package) (atom ZeroDec) true = None <-> ZeroDec < ZeroDec).
Proof.
  split; [reflexivity|]. split; [reflexivity|].
  destruct (Validate_amount (pkg := Sample.package) (atom ZeroDec) eq_refl eq_refl)
    as (H1 & H2 & _).
  split; assumption.
Defined.



(** ** The scenarios of the spec, section 8 *)

Example Plus_scenario :
  DecCoins_Plus [atom (NewDec 2); btc (NewDec 1)] [atom (NewDec 3); eth (NewDec 4)]
  = Return [atom (NewDec 5); btc (NewDec 1); eth (NewDec 4)].
Proof. reflexivity. Qed.

Example TruncateDecimal_scenario :
  DecCoins_TruncateDecimal (pkg := Sample.package) [atom (Sample.tenths 37)]
  = Return ([mkCoin "atom" 3], [atom (Sample.tenths 7)]).
Proof. reflexivity. Qed.

Example TruncateDecimal_keeps_zero_change :
  DecCoins_TruncateDecimal (pkg := Sample.package) [atom (NewDec 1); btc (NewDec 2)]
  = Return ([mkCoin "atom" 1; mkCoin "btc" 2], [atom ZeroDec; btc ZeroDec]).
Proof. reflexivity. Qed.

Example ParseDecCoins_scenario :
  ParseDecCoins (pkg := Sample.package) "1.5atom, 2btc"
  = ([atom (Sample.tenths 15); btc (NewDec 2)], None) /\
  ParseDecCoins (pkg := Sample.package) "" = ([], None) /\
  fst (ParseDecCoins (pkg := Sample.package) "atom") = [] /\
  snd (ParseDecCoins (pkg := Sample.package) "atom") <> None.
Proof. repeat split. discriminate. Qed.

Example TrimSpace_unicode :
  strings.TrimSpace
    (strings.bytes [32; 226; 128; 128; 97; 32; 98; 194; 160; 10]%nat) = "a b".
Proof. reflexivity. Qed.

(** ** The further properties on concrete sets *)

Lemma Plus_contract_witness :
  zeroFree [atom (NewDec 2); btc (NewDec 1)] = true /\
  zeroFree [atom (NewDec (-2)); eth (NewDec 4)] = true /\
  exists S,
    DecCoins_Plus [atom (NewDec 2); btc (NewDec 1)] [atom (NewDec (-2)); eth (NewDec 4)]
    = Return S /\
    zeroFree S = true /\
    (forall d, hasDenom d S = true ->
               hasDenom d [atom (NewDec 2); btc (NewDec 1)] = true \/
               hasDenom d [atom (NewDec (-2)); eth (NewDec 4)] = true).
Proof.
  split; [reflexivity|]. split; [reflexivity|].
  apply Plus_contract; reflexivity.
Defined.

Lemma Plus_associative_signed_witness :
  (ab <- DecCoins_Plus [atom (NewDec 1)] [atom (NewDec (-1))] ;;
   DecCoins_Plus ab [atom (NewDec 1); btc (NewDec 2)])
  = (bc <- DecCoins_Plus [atom (NewDec (-1))] [atom (NewDec 1); btc (NewDec 2)] ;;
     DecCoins_Plus [atom (NewDec 1)] bc).
Proof.
  apply Plus_associative_signed; reflexivity.
Defined.

Lemma Minus_Plus_cancel_witness :
  (ab <- DecCoins_Plus [atom (NewDec 2); btc (NewDec 1)] [atom (NewDec 3); eth (NewDec 4)] ;;
   DecCoins_Minus ab [atom (NewDec 3); eth (NewDec 4)])
  = Return [atom (NewDec 2); btc (NewDec 1)].
Proof.
  apply Minus_Plus_cancel; reflexivity.
Defined.

Lemma Minus_AmountOf_witness :
  exists R,
    DecCoins_Minus [atom (NewDec 2); btc (NewDec 1)] [atom (NewDec 3); eth (NewDec 4)]
    = Return R /\
    increasing R = true /\
    (forall d, DecCoins_AmountOf R d
               = Dec_Sub (DecCoins_AmountOf [atom (NewDec 2); btc (NewDec 1)] d)
                         (DecCoins_AmountOf [atom (NewDec 3); eth (NewDec 4)] d)).
Proof.
  apply Minus_AmountOf; reflexivity.
Defined.

Lemma Minus_valid_iff_witness :
  exists R,
    DecCoins_Minus [atom (NewDec 3); eth (NewDec 4)] [atom (NewDec 2)] = Return R /\
    (DecCoins_IsValid (pkg := Sample.package) R = true <->
     DecCoins_HasNegative R = false) /\
    (DecCoins_HasNegative R = false <->
     forall d, DecCoins_AmountOf [atom (NewDec 2)] d
               <= DecCoins_AmountOf [atom (NewDec 3); eth (NewDec 4)] d).
Proof.
  apply (Minus_valid_iff (pkg := Sample.package)); reflexivity.
Defined.

Lemma IsValid_amounts_witness :
  DecCoins_HasNegative [atom (NewDec 3); eth (NewDec 4)] = false /\
  (DecCoins_IsZero [atom (NewDec 3); eth (NewDec 4)] = true <->
   [atom (NewDec 3); eth (NewDec 4)] = []) /\
  (forall d,
      (ZeroDec < DecCoins_AmountOf [atom (NewDec 3); eth (NewDec 4)] d <->
       hasDenom d [atom (NewDec 3); eth (NewDec 4)] = true) /\
      (DecCoins_AmountOf [atom (NewDec 3); eth (NewDec 4)] d = ZeroDec <->
       hasDenom d [atom (NewDec 3); eth (NewDec 4)] = false)).
Proof.
  apply (IsValid_amounts (pkg := Sample.package)). reflexivity.
Defined.

Lemma DecCoin_TruncateDecimal_exact_witness :
  exists (i : Coin) (r : DecCoin),
    DecCoin_TruncateDecimal (pkg := Sample.package) (atom (Sample.tenths 37))
    = Return (i, r) /\
    Coin_Denom i = "atom" /\ Denom r = "atom" /\
    Dec_Add (NewDecFromInt (Coin_Amount i)) (Amount r) = Sample.tenths 37 /\
    0 <= Coin_Amount i /\
    ZeroDec <= Amount r < OneDec /\
    NewDecFromInt (Coin_Amount i) <= Sample.tenths 37
    < NewDecFromInt (Coin_Amount i + 1).
Proof.
  apply (DecCoin_TruncateDecimal_exact (pkg := Sample.package) (atom (Sample.tenths 37))).
  reflexivity.
Defined.

Lemma Coin_round_trip_witness :
  exists dc,
    NewDecCoinFromCoin (pkg := Sample.package) (mkCoin "atom" 3) = Return dc /\
    DecCoin_TruncateDecimal (pkg := Sample.package) dc
    = Return (mkCoin "atom" 3, atom ZeroDec).
Proof.
  apply (Coin_round_trip (pkg := Sample.package) (mkCoin "atom" 3));
    [discriminate | reflexivity | reflexivity].
Defined.

Lemma TruncateDecimal_ordered_witness :
  DecCoins_TruncateDecimal (pkg := Sample.package)
    [atom (Sample.tenths 37); btc (NewDec 2)]
  = Return (map truncatedCoin [atom (Sample.tenths 37); btc (NewDec 2)],
            map changeCoin [atom (Sample.tenths 37); btc (NewDec 2)]).
Proof.
  apply (TruncateDecimal_ordered (pkg := Sample.package)); reflexivity.
Defined.

Lemma TruncateDecimal_twice_witness :
  exists (I : Coins) (R : DecCoins),
    DecCoins_TruncateDecimal (pkg := Sample.package)
      [btc (Sample.tenths 12); atom (Sample.tenths 37)] = Return (I, R) /\
    DecCoins_TruncateDecimal (pkg := Sample.package) R = Return (map zeroCoin R, R).
Proof.
  apply (TruncateDecimal_twice (pkg := Sample.package)); reflexivity.
Defined.

Lemma Coins_round_trip_witness :
  exists (dcs R : DecCoins),
    NewDecCoins (pkg := Sample.package) [mkCoin "btc" 2; mkCoin "atom" 3] = Return dcs /\
    DecCoins_TruncateDecimal (pkg := Sample.package) dcs
    = Return ([mkCoin "btc" 2; mkCoin "atom" 3], R) /\
    DecCoins_IsZero R = true.
Proof.
  apply (Coins_round_trip (pkg := Sample.package)).
  repeat constructor; discriminate.
Defined.

Lemma ParseDecCoins_success_witness :
  List.length (fst (ParseDecCoins (pkg := Sample.package) "2btc;1.5atom")) = 2%nat /\
  increasing (fst (ParseDecCoins (pkg := Sample.package) "2btc;1.5atom")) = true.
Proof.
  destruct (ParseDecCoins_success (pkg := Sample.package) "2btc;1.5atom"
              [atom (Sample.tenths 15); btc (NewDec 2)])
    as (_ & _ & H1 & H2); [discriminate | reflexivity |].
  split; assumption.
Defined.

Lemma ParseDecCoins_rejects_witness :
  (exists err, ParseDecCoins (pkg := Sample.package) "1atom,0btc" = ([], Some err)) /\
  (exists err, ParseDecCoins (pkg := Sample.package) "1atom,2btc,3atom" = ([], Some err)).
Proof.
  split.
  - destruct (ParseDecCoins_rejects (pkg := Sample.package) "1atom,0btc")
      as (H & _); [discriminate|].
    apply (H "0btc"); [right; left; reflexivity | reflexivity].
  - destruct (ParseDecCoins_rejects (pkg := Sample.package) "1atom,2btc,3atom")
      as (_ & H); [discriminate|].
    apply (H 0%nat 2%nat "1atom" "3atom");
      [discriminate | reflexivity | reflexivity | reflexivity].
Defined.

Lemma Plus_AmountOf_signed_witness :
  exists S,
    DecCoins_Plus [atom (NewDec 2); btc (NewDec (-1))] [atom (NewDec (-3)); eth ZeroDec]
    = Return S /\
    increasing S = true /\
    (forall d, DecCoins_AmountOf S d
               = Dec_Add (DecCoins_AmountOf [atom (NewDec 2); btc (NewDec (-1))] d)
                         (DecCoins_AmountOf [atom (NewDec (-3)); eth ZeroDec] d)).
Proof.
  apply Plus_AmountOf_signed; reflexivity.
Defined.

Lemma DecCoin_Plus_Minus_inverse_witness :
  (c <- DecCoin_Plus (atom (NewDec 2)) (atom (NewDec 3)) ;;
   DecCoin_Minus c (atom (NewDec 3))) = Return (atom (NewDec 2)).
Proof.
  apply (DecCoin_Plus_Minus_inverse (atom (NewDec 2)) (atom (NewDec 3))). reflexivity.
Defined.

Lemma ParseDecCoins_single_witness :
  ParseDecCoins (pkg := Sample.package) " 1.5atom " = ([atom (Sample.tenths 15)], None) <->
  ParsePositiveDecCoin (pkg := Sample.package) (strings.TrimSpace " 1.5atom ")
  = (atom (Sample.tenths 15), None).
Proof.
  apply (ParseDecCoins_single (pkg := Sample.package) " 1.5atom ");
    [discriminate | reflexivity].
Defined.
